(** * api-demo-node: the user CRUD controllers and the request validation

    A shallow embedding of
      - src/models/users-model.ts           (the seeded in-memory collection),
      - src/controllers/user/*.ts           (createNewUser, getUserById,
                                             updateUser, deleteUser),
      - src/middleware/validation-middleware.ts (validateRequest),
      - src/validation/schemas/*.ts         (the Joi schemas),
      - src/routes/user.ts                  (the handlers that chain them),
    and the properties of the specification that concern them.

    JavaScript objects are finite maps from property names to values
    ([gmap string value]); the collection [users] is a list of objects that
    the controllers read and replace; [randomUUID()] and
    [new Date().toISOString()] are results handed in by the environment, one
    argument per call. Strings are those of the standard library, a
    character standing for a code unit below 256. Joi is a library: the
    validation of an object of string fields is written out for the options
    that [validateRequest] passes, and the grammars of e-mail addresses and
    GUIDs are parameters ([Formats]). *)

From Stdlib Require Import ZArith Ascii String.
From stdpp Require Import gmap strings list fin_maps.

Local Open Scope string_scope.
Local Open Scope list_scope.

(** ** JavaScript values and objects *)

(** The primitive values a parsed request or a user record can hold.
    Numbers are the integral ones; nested objects and arrays do not occur in
    the records of this program. *)
Inductive value :=
  | VUndefined
  | VNull
  | VBool (b : bool)
  | VNum (n : Z)
  | VStr (s : string).

Global Instance value_eq_dec : EqDecision value.
Proof. solve_decision. Defined.

(** The operator [===] on these values. *)
Definition strict_eq (a b : value) : bool := bool_decide (a = b).

(** An object: its own enumerable properties. *)
Abbreviation obj := (gmap string value).

(** Property read [o.k]: [undefined] when the property is absent. *)
Definition get (o : obj) (k : string) : value := default VUndefined (o !! k).

(** Object spread: [{ ...o, ...src }] copies the properties of [src] over
    those of [o]. *)
Definition spread (o src : obj) : obj := src ∪ o.

(** A property written after the spreads, [{ ..., k: v }]. *)
Definition set_prop (k : string) (v : value) (o : obj) : obj := <[k := v]> o.

(** ** Errors *)

Inductive exn := Error (message : string).

Inductive result (A : Type) :=
  | Ok (a : A)
  | Throw (e : exn).
Arguments Ok {A} a.
Arguments Throw {A} e.

(** [new Error('User not found')], the failure the specification calls
    NotFound. *)
Definition NotFound : exn := Error "User not found".

(** ** src/models/users-model.ts *)

(** The seven properties of the type [User]. *)
Definition user_fields : list string :=
  ["id"; "firstName"; "lastName"; "email"; "phone"; "createdAt"; "updatedAt"].

Definition mkUser (id firstName lastName email phone createdAt updatedAt : string)
  : obj :=
  list_to_map
    [("id", VStr id); ("firstName", VStr firstName); ("lastName", VStr lastName);
     ("email", VStr email); ("phone", VStr phone);
     ("createdAt", VStr createdAt); ("updatedAt", VStr updatedAt)].

Definition users : list obj :=
  [ mkUser "4b1335f4-788b-4e8d-9ed5-04b99ce430a4" "Emma" "Johnson"
      "emma.johnson@email.com" "+1-555-555-0123"
      "2023-01-15T08:30:00Z" "2023-08-22T14:15:30Z";
    mkUser "c27d2af0-b713-4092-a73b-024d1313233f" "Liam" "Williams"
      "liam.williams@email.com" "+1-555-555-0456"
      "2023-02-03T12:45:15Z" "2023-09-10T09:22:45Z";
    mkUser "02ad7f8d-9a4d-4f00-b101-7744851880a2" "Sophia" "Brown"
      "sophia.brown@email.com" "+1-555-555-0789"
      "2023-03-22T16:20:30Z" "2023-07-18T11:33:20Z";
    mkUser "a3fdef38-b254-4139-b93c-7e576baf9536" "Noah" "Davis"
      "noah.davis@email.com" "+1-555-555-0321"
      "2023-04-07T10:15:45Z" "2023-09-25T15:40:10Z";
    mkUser "872afdbd-639e-495f-94f0-c008799f7914" "Olivia" "Miller"
      "olivia.miller@email.com" "+1-555-555-0654"
      "2023-05-12T13:25:20Z" "2023-08-30T16:55:35Z";
    mkUser "3415a2d7-8f54-4e17-8966-55d1b0219ee4" "Ethan" "Wilson"
      "ethan.wilson@email.com" "+1-555-555-0987"
      "2023-01-28T09:40:10Z" "2023-06-14T12:28:50Z";
    mkUser "a81f014a-efea-40d1-9a53-ff7f329b653c" "Ava" "Moore"
      "ava.moore@email.com" "+1-555-555-0147"
      "2023-06-05T14:55:25Z" "2023-09-12T10:18:40Z";
    mkUser "3d4c5f82-909d-474c-95ee-0ab44fec640e" "Mason" "Taylor"
      "mason.taylor@email.com" "+1-555-555-0258"
      "2023-07-19T11:30:50Z" "2023-09-28T13:42:15Z";
    mkUser "8b5fac60-b246-4601-81e7-a517ceea1c6d" "Isabella" "Anderson"
      "isabella.anderson@email.com" "+1-555-555-0369"
      "2023-08-01T07:15:35Z" "2023-09-05T08:50:25Z";
    mkUser "798ada0b-a752-449c-9138-551a4850fb03" "William" "Thomas"
      "william.thomas@email.com" "+1-555-555-0741"
      "2023-09-14T15:20:10Z" "2023-09-20T17:35:55Z" ].

(** ** src/controllers/user *)

(** The callback [(user) => user.id === id] of [find] and [findIndex]. *)
Definition has_id (id : value) (user : obj) : Prop :=
  strict_eq (get user "id") id = true.

Global Instance has_id_dec id user : Decision (has_id id user).
Proof. unfold has_id. apply _. Defined.

(** [users.findIndex(...)]: [None] stands for the index -1. *)
Definition findIndex (id : value) (users : list obj) : option nat :=
  fst <$> list_find (has_id id) users.

(** [users.find(...)]: [None] stands for [undefined]. *)
Definition find (id : value) (users : list obj) : option obj :=
  snd <$> list_find (has_id id) users.

(** create-new-user.ts; [newUser] is the object literal. [uuid] is what [randomUUID()] returned, [created]
    and [updated] what the two [new Date().toISOString()] calls returned, in
    the order of the object literal. The result is the returned object and
    the collection after [users.push]. *)
Definition newUser (uuid created updated : string) (user : obj) : obj :=
  set_prop "updatedAt" (VStr updated)
    (set_prop "createdAt" (VStr created)
       (set_prop "id" (VStr uuid) (spread ∅ user))).

Definition createNewUser (uuid created updated : string) (user : obj)
    (users : list obj) : obj * list obj :=
  let newUser := newUser uuid created updated user in
  (newUser, users ++ [newUser]).

(** get-user-by-id.ts. *)
Definition getUserById (id : value) (users : list obj) : result obj :=
  match find id users with
  | Some user => Ok user
  | None => Throw (Error "User not found")
  end.

(** update-user.ts; [updatedUser] is the object literal. [now] is what [new Date().toISOString()] returned. The
    collection is returned unchanged when the function throws. An index that
    [findIndex] returned is in range, so the inner [None] branch is never
    taken (lemma [found_first]). *)
Definition updatedUser (now : string) (old user : obj) : obj :=
  set_prop "updatedAt" (VStr now) (spread (spread ∅ old) user).

Definition updateUser (now : string) (id : value) (user : obj)
    (users : list obj) : result obj * list obj :=
  match findIndex id users with
  | None => (Throw (Error "User not found"), users)
  | Some userIndex =>
      match users !! userIndex with
      | None => (Throw (Error "User not found"), users)
      | Some old =>
          let updatedUser := updatedUser now old user in
          (Ok updatedUser, <[userIndex := updatedUser]> users)
      end
  end.

(** delete-user.ts: [splice(userIndex, 1)] removes the element at that
    index. *)
Definition deleteUser (id : value) (users : list obj)
  : result obj * list obj :=
  match findIndex id users with
  | None => (Throw (Error "User not found"), users)
  | Some userIndex =>
      match users !! userIndex with
      | None => (Throw (Error "User not found"), users)
      | Some deletedUser => (Ok deletedUser, delete userIndex users)
      end
  end.

(** ** Joi: the part of the library that the schemas of this program use *)

(** *** Character classes and the phone pattern *)

Definition code (c : ascii) : nat := nat_of_ascii c.

(** [\d] *)
Definition is_digit (c : ascii) : bool :=
  Nat.leb 48 (code c) && Nat.leb (code c) 57.

(** [[1-9]] *)
Definition is_digit19 (c : ascii) : bool :=
  Nat.leb 49 (code c) && Nat.leb (code c) 57.

(** [\s], on the characters below U+0100: tab, line feed, vertical tab, form
    feed, carriage return, space and no-break space. *)
Definition is_space (c : ascii) : bool :=
  (Nat.leb 9 (code c) && Nat.leb (code c) 13) ||
  Nat.eqb (code c) 32 || Nat.eqb (code c) 160.

(** [[-\s]] *)
Definition is_sep (c : ascii) : bool := Nat.eqb (code c) 45 || is_space c.

(** [[\d-\s]]: a digit, a dash or white space. *)
Definition is_phone_char (c : ascii) : bool := is_digit c || is_sep c.

(** [[\d-\s]{7,15}$] *)
Definition phone_body (l : list ascii) : bool :=
  Nat.leb 7 (length l) && Nat.leb (length l) 15 && forallb is_phone_char l.

(** [\d{k}[-\s]?] followed by the body, for one number [k] of digits. *)
Definition phone_after_prefix (k : nat) (l : list ascii) : bool :=
  Nat.leb k (length l) && forallb is_digit (take k l) &&
  (phone_body (drop k l) ||
   match drop k l with
   | c :: rest => is_sep c && phone_body rest
   | [] => false
   end).

(** [/^(\+[1-9]\d{0,3}[-\s]?)?[\d-\s]{7,15}$/.test(s)] *)
Definition phone_pattern (s : string) : bool :=
  let l := String.list_ascii_of_string s in
  phone_body l ||
  match l with
  | plus :: d :: rest =>
      Nat.eqb (code plus) 43 && is_digit19 d &&
      existsb (fun k => phone_after_prefix k rest) [0; 1; 2; 3]
  | _ => false
  end.

(** [s] contains the character [c]. *)
Definition contains (c : ascii) (s : string) : bool :=
  existsb (fun x => Nat.eqb (code x) (code c)) (String.list_ascii_of_string s).

(** The two string formats whose grammar lives in the library: e-mail
    addresses (rule [email()]) and GUIDs (rule [uuid()]). Of the first, the
    only fact used is that an address has an [@]. *)
Class Formats := {
  isEmail : string -> bool;
  isGuid : string -> bool;
  isEmail_at : forall s, isEmail s = true -> contains "@" s = true
}.

(** *** Schemas *)

Inductive presence := Optional | Required.

(** A rule added to a string schema: its error code, its test, and the
    default message for a label and the offending value. *)
Record rule := Rule {
  rule_code : string;
  rule_test : string -> bool;
  rule_message : string -> string -> string
}.

(** [Joi.string()] with its flags, rules and message overrides. *)
Record schema := Schema {
  flag_presence : presence;
  rules : list rule;
  overrides : list (string * string)
}.

Definition Joi_string : schema :=
  {| flag_presence := Optional; rules := []; overrides := [] |}.

Definition add_rule (r : rule) (s : schema) : schema :=
  {| flag_presence := flag_presence s; rules := rules s ++ [r];
     overrides := overrides s |}.

(** [.required()] *)
Definition required (s : schema) : schema :=
  {| flag_presence := Required; rules := rules s; overrides := overrides s |}.

(** [.messages({...})]: later overrides win. *)
Definition messages (m : list (string * string)) (s : schema) : schema :=
  {| flag_presence := flag_presence s; rules := rules s;
     overrides := m ++ overrides s |}.

Definition quote : string := String (ascii_of_nat 34) EmptyString.

(** [.email()] *)
Definition email `{Formats} : schema -> schema :=
  add_rule {| rule_code := "string.email"; rule_test := isEmail;
              rule_message := fun label _ => label ++ " must be a valid email" |}%string.

(** [.uuid()]; its error code is [string.guid]. *)
Definition uuid `{Formats} : schema -> schema :=
  add_rule {| rule_code := "string.guid"; rule_test := isGuid;
              rule_message := fun label _ => label ++ " must be a valid GUID" |}%string.

(** [.pattern(re)], given the test of [re] and its source text. *)
Definition pattern (test : string -> bool) (source : string) : schema -> schema :=
  add_rule {| rule_code := "string.pattern.base"; rule_test := test;
              rule_message := fun label v =>
                (label ++ " with value " ++ quote ++ v ++ quote ++
                 " fails to match the required pattern: " ++ source)%string |}.

(** [Joi.object({...})]: the keys in declaration order. *)
Abbreviation object_schema := (list (string * schema)).

Definition Joi_object (keys : list (string * schema)) : object_schema := keys.

(** [.fork(paths, adjuster)] *)
Definition fork (paths : list string) (adjuster : schema -> schema)
    (o : object_schema) : object_schema :=
  (fun '(k, s) => if bool_decide (k ∈ paths) then (k, adjuster s) else (k, s)) <$> o.

(** [.append({...})], that is [.keys({...})]: the declared keys of the same
    names are dropped and the given ones are added after the others. *)
Definition append (extra : list (string * schema)) (o : object_schema)
  : object_schema :=
  List.filter (fun ks => negb (bool_decide (ks.1 ∈ extra.*1))) o ++ extra.

(** *** Validation *)

(** One item of [error.details]. *)
Record error_item := ErrorItem {
  item_message : string;
  item_path : list string;
  item_type : string
}.

Definition override (s : schema) (code : string) : option string :=
  snd <$> List.find (fun kv => bool_decide (kv.1 = code)) (overrides s).

(** The message of an error: the override of its code when the schema has
    one, the default text otherwise. Labels are not wrapped
    ([errors.wrap.label] is [false]). *)
Definition render (s : schema) (code fallback : string) : string :=
  default fallback (override s code).

Definition label (path : list string) : string := String.concat "." path.

Definition report (s : schema) (path : list string) (code fallback : string)
  : error_item :=
  {| item_message := render s code fallback; item_path := path;
     item_type := code |}.

(** The failures of the rules on a string, every rule tried in turn
    ([abortEarly] is [false]). *)
Definition rule_errors (s : schema) (path : list string) (v : string)
  : list error_item :=
  omap (fun r => if rule_test r v then None
                 else Some (report s path (rule_code r)
                              (rule_message r (label path) v)))
       (rules s).

(** A string schema applied to the value found under a key. An absent or
    undefined value is checked against the presence flag only; a value that
    is not a string, or the empty string, fails before any rule runs. *)
Definition validate_string (s : schema) (path : list string) (item : value)
  : list error_item :=
  match item with
  | VUndefined =>
      match flag_presence s with
      | Required =>
          [report s path "any.required" (label path ++ " is required")%string]
      | Optional => []
      end
  | VStr "" =>
      [report s path "string.empty"
         (label path ++ " is not allowed to be empty")%string]
  | VStr v => rule_errors s path v
  | _ => [report s path "string.base" (label path ++ " must be a string")%string]
  end.

(** The errors of an object: those of its keys, in declaration order. *)
Definition object_errors (o : object_schema) (raw : obj) : list error_item :=
  flat_map (fun '(k, s) => validate_string s [k] (get raw k)) o.

(** [stripUnknown: true]: the properties with no declared key are removed. *)
Definition strip_unknown (o : object_schema) (raw : obj) : obj :=
  filter (fun kv => kv.1 ∈ o.*1) raw.

(** [schema.validate(raw, { abortEarly: false, stripUnknown: true, ... })]
    for a raw value that is an object, as the body parser and the router
    provide: the pair [{ error, value }], [error] being [None] when there is
    no failure. *)
Definition validate (o : object_schema) (raw : obj)
  : option (list error_item) * obj :=
  let errors := object_errors o raw in
  (if bool_decide (errors = []) then None else Some errors,
   strip_unknown o raw).

(** ** src/validation/schemas *)

(** shared.schema.ts *)
Definition emailSchema `{Formats} : schema :=
  messages [("string.email", "Invalid email address")] (email Joi_string).

Definition idSchema `{Formats} : schema :=
  required (messages [("string.uuid", "Invalid ID")] (uuid Joi_string)).

Definition phone_source : string :=
  "/^(\+[1-9]\d{0,3}[-\s]?)?[\d-\s]{7,15}$/".

Definition phoneSchema : schema :=
  messages [("string.pattern.base", "Invalid phone number")]
    (pattern phone_pattern phone_source Joi_string).

(** user.schema.ts *)
Definition userBaseSchema `{Formats} : object_schema :=
  Joi_object [("firstName", Joi_string); ("lastName", Joi_string);
              ("email", emailSchema); ("phone", phoneSchema)].

Definition userCreateSchema `{Formats} : object_schema :=
  fork ["firstName"; "lastName"] required userBaseSchema.

Definition userIdSchema `{Formats} : object_schema :=
  Joi_object [("id", idSchema)].

Definition userUpdateSchema `{Formats} : object_schema := userBaseSchema.

(** The other variant of user.schema.ts that the sources contain: the base
    schema requires firstName and lastName, and the update schema adds a
    required [id]. The PATCH handler and its tests (a partial body, and the
    empty body, answered with 200) go with the variant above. *)
Module Earlier.

Definition userBaseSchema `{Formats} : object_schema :=
  Joi_object [("firstName", required Joi_string);
              ("lastName", required Joi_string);
              ("email", emailSchema); ("phone", phoneSchema)].

Definition userCreateSchema `{Formats} : object_schema := userBaseSchema.

Definition userUpdateSchema `{Formats} : object_schema :=
  append [("id", idSchema)] userBaseSchema.

End Earlier.

(** ** src/middleware/validation-middleware.ts *)

(** An entry of the [details] array of the 400 response. *)
Record detail := Detail { path : string; message : string }.

Inductive validated :=
  | Next (value : obj)
  | BadRequest (details : list detail).

Definition errorDetails (details : list error_item) : list detail :=
  (fun d => {| path := String.concat "." (item_path d);
               message := item_message d |}) <$> details.

(** [validateRequest(schema, property)] applied to [req[property]]: either
    the sanitized value is stored back and [next()] is called, or the
    response is the 400 with the details. *)
Definition validateRequest (o : object_schema) (raw : obj) : validated :=
  match validate o raw with
  | (None, value) => Next value
  | (Some errors, _) => BadRequest (errorDetails errors)
  end.

(** ** src/routes/user.ts *)

(** What a handler does with the request: a response with a status and a
    body, the 400 of the validation middleware, or an exception left to
    the error handler of the application. *)
Inductive response :=
  | Send (status : nat) (body : obj)
  | Invalid (details : list detail)
  | Failed (e : exn).

Definition respond (status : nat) (r : result obj * list obj)
  : response * list obj :=
  match r with
  | (Ok user, users) => (Send status user, users)
  | (Throw e, users) => (Failed e, users)
  end.

(** [router.delete('/:id', validateRequest(userIdSchema, 'params'), ...)] *)
Definition delete_route `{Formats} (params : obj) (users : list obj)
  : response * list obj :=
  match validateRequest userIdSchema params with
  | BadRequest details => (Invalid details, users)
  | Next params => respond 200 (deleteUser (get params "id") users)
  end.

(** [router.get('/:id', validateRequest(userIdSchema, 'params'), ...)] *)
Definition get_route `{Formats} (params : obj) (users : list obj)
  : response * list obj :=
  match validateRequest userIdSchema params with
  | BadRequest details => (Invalid details, users)
  | Next params => respond 200 (getUserById (get params "id") users, users)
  end.

(** [router.patch('/:id', validateRequest(userIdSchema, 'params'),
    validateRequest(userUpdateSchema, 'body'), ...)] *)
Definition patch_route `{Formats} (now : string) (params body : obj)
    (users : list obj) : response * list obj :=
  match validateRequest userIdSchema params with
  | BadRequest details => (Invalid details, users)
  | Next params =>
      match validateRequest userUpdateSchema body with
      | BadRequest details => (Invalid details, users)
      | Next body => respond 200 (updateUser now (get params "id") body users)
      end
  end.

(** [router.post('/', validateRequest(userCreateSchema, 'body'), ...)] *)
Definition post_route `{Formats} (uuid created updated : string) (body : obj)
    (users : list obj) : response * list obj :=
  match validateRequest userCreateSchema body with
  | BadRequest details => (Invalid details, users)
  | Next body =>
      let '(user, users) := createNewUser uuid created updated body users in
      (Send 201 user, users)
  end.

(** ** The environment *)

(** The shape of what [randomUUID()] returns: 36 characters, lower-case
    hexadecimal digits in groups of 8, 4, 4, 4 and 12 joined by dashes. *)
Definition is_hex (c : ascii) : bool :=
  is_digit c || (Nat.leb 97 (code c) && Nat.leb (code c) 102).

Fixpoint has_shape (shape s : string) : bool :=
  match shape, s with
  | EmptyString, EmptyString => true
  | String x shape, String c s =>
      (if Nat.eqb (code x) 45 then Nat.eqb (code c) 45 else is_hex c)
      && has_shape shape s
  | _, _ => false
  end.

Definition is_random_uuid (s : string) : bool :=
  has_shape "xxxxxxxx-xxxx-xxxx-xxxx-xxxxxxxxxxxx" s.

(** The identifiers in use. *)
Definition ids (users : list obj) : list value := (fun u => get u "id") <$> users.

(** The generated identifier is carried by no stored record. *)
Definition fresh (uuid : string) (users : list obj) : Prop :=
  VStr uuid ∉ ids users.

(** A parsed JSON body has no property whose value is [undefined]. *)
Definition is_json (o : obj) : Prop :=
  map_Forall (fun _ v => v ≠ VUndefined) o.

(** Timestamps are compared as the ISO 8601 strings they are. *)
Definition ts_le (a b : value) : bool :=
  match a, b with
  | VStr x, VStr y => String.leb x y
  | _, _ => false
  end.

(** ** Well-formed records *)

(** A property holding a string. *)
Definition populated (u : obj) (k : string) : Prop :=
  exists s, u !! k = Some (VStr s).

(** The invariant as the specification words it: all seven properties
    populated and [createdAt] not after [updatedAt]. *)
Definition full_record (u : obj) : Prop :=
  (forall k, k ∈ user_fields -> populated u k) /\
  ts_le (get u "createdAt") (get u "updatedAt") = true.

(** The properties a request body can set. *)
Definition body_fields : list string := ["firstName"; "lastName"; "email"; "phone"].

(** The properties every stored record does have. *)
Definition core_fields : list string :=
  ["id"; "firstName"; "lastName"; "createdAt"; "updatedAt"].

(** The invariant the handlers maintain: the five core properties populated,
    nothing outside the seven declared ones, strings only, and [createdAt]
    not after [updatedAt]. *)
Definition stored_record (u : obj) : Prop :=
  (forall k, k ∈ core_fields -> populated u k) /\
  (forall k v, u !! k = Some v -> k ∈ user_fields /\ exists s, v = VStr s) /\
  ts_le (get u "createdAt") (get u "updatedAt") = true.

(** ** The states of a run *)

(** The latest [createdAt] of the seeded collection: the clock of a run is
    not before it. *)
Definition seed_time : string := "2023-09-14T15:20:10Z".

(** [reachable clock users]: [users] is the collection after some sequence of
    POST, PATCH and DELETE requests on the seeded one, and [clock] the last
    reading of the clock. Every generated identifier is fresh and has the
    shape of a UUID, every reading of the clock is not before the previous
    one, and request bodies are parsed JSON. *)
Inductive reachable `{Formats} : string -> list obj -> Prop :=
  | reach_seed : reachable seed_time users
  | reach_post clock us uuid created updated body :
      reachable clock us ->
      is_json body ->
      is_random_uuid uuid = true ->
      fresh uuid us ->
      String.leb clock created = true ->
      String.leb created updated = true ->
      reachable updated (post_route uuid created updated body us).2
  | reach_patch clock us now params body :
      reachable clock us ->
      is_json body ->
      String.leb clock now = true ->
      reachable now (patch_route now params body us).2
  | reach_delete clock us params :
      reachable clock us ->
      reachable clock (delete_route params us).2.

(** What is carried along a run: every stored record is a [stored_record],
    no identifier occurs twice, and no [createdAt] is after the last reading
    of the clock. *)
Definition invariant (clock : string) (users : list obj) : Prop :=
  Forall stored_record users /\
  NoDup (ids users) /\
  Forall (fun u => ts_le (get u "createdAt") (VStr clock) = true) users.

(** ** Constraints, as the specification words them *)

(** A value satisfies the constraint of its field: when absent the field is
    optional; when present it is a non-empty string that passes every rule. *)
Definition accepts (s : schema) (v : value) : Prop :=
  match v with
  | VUndefined => flag_presence s = Optional
  | VStr x => x <> "" /\ Forall (fun r => rule_test r x = true) (rules s)
  | _ => False
  end.

(** The rules a string violates. *)
Definition failing_rules (s : schema) (x : string) : list rule :=
  List.filter (fun r => negb (rule_test r x)) (rules s).

(** The details the middleware reports for the key at one position of the
    schema. *)
Definition field_details (raw : obj) (ks : string * schema) : list detail :=
  errorDetails (validate_string ks.2 [ks.1] (get raw ks.1)).

(** ** Sample data *)

(** A stand-in for the two formats of the library, for running the
    definitions on examples: an address is any string with an [@], a GUID any
    string of the shape of [randomUUID()]. *)
Definition sample_formats : Formats :=
  {| isEmail := contains "@"; isGuid := is_random_uuid;
     isEmail_at := fun _ H => H |}.

(** The body of the scenario of the specification. *)
Definition alice_bad : obj :=
  list_to_map [("firstName", VStr "Alice"); ("lastName", VStr "Johnson");
               ("email", VStr "bad"); ("phone", VStr "bad")].

(** The records of the unit tests. *)
Definition john : obj :=
  mkUser "1" "John" "Doe" "john.doe@example.com" "+1-555-123-4567"
    "2024-01-01T00:00:00.000Z" "2024-01-01T00:00:00.000Z".

Definition jane : obj :=
  mkUser "2" "Jane" "Smith" "jane.smith@example.com" "+1-555-987-6543"
    "2024-01-02T00:00:00.000Z" "2024-01-02T00:00:00.000Z".

Definition bob : obj :=
  mkUser "3" "Bob" "Wilson" "bob.wilson@example.com" "+1-555-111-2222"
    "2024-01-03T00:00:00.000Z" "2024-01-03T00:00:00.000Z".

Definition mockUUID : string := "123e4567-e89b-12d3-a456-426614174000".
Definition mockDateString : string := "2024-02-15T12:30:00.000Z".

(** A second record with the identifier of [john]. *)
Definition johnny : obj :=
  mkUser "1" "Johnny" "Twin" "johnny.twin@example.com" "+1-555-000-0000"
    "2024-01-04T00:00:00.000Z" "2024-01-04T00:00:00.000Z".

(** A record created earlier with the identifier [mockUUID]. *)
Definition user_one : obj :=
  mkUser mockUUID "User" "One" "user1@example.com" "+1-555-111-1111"
    "2024-01-15T10:30:00.000Z" "2024-01-15T10:30:00.000Z".

(** A body with the two required properties only. *)
Definition user_two : obj :=
  list_to_map [("firstName", VStr "User"); ("lastName", VStr "Two")].

(** The seeded collection after one POST with the body [user_two], which has
    no e-mail address and no phone number. *)
Definition after_post : list obj :=
  (@post_route sample_formats mockUUID mockDateString mockDateString
     user_two users).2.

(** A PATCH body that also carries [id] and [createdAt]. *)
Definition patch_with_id : obj :=
  list_to_map [("firstName", VStr "Johnny"); ("id", VStr "2");
               ("createdAt", VStr "1999-12-31T23:59:59.000Z")].

(** ** The phone pattern, read as a grammar *)

(** The optional group [(\+[1-9]\d{0,3}[-\s]?)] of the pattern: a plus sign, a
    digit from 1 to 9, up to three digits, and at most one dash or white
    space. *)
Definition phone_prefix (l : list ascii) : Prop :=
  exists d ds sep,
    l = "+"%char :: d :: ds ++ sep /\
    is_digit19 d = true /\
    length ds <= 3 /\ forallb is_digit ds = true /\
    (sep = [] \/ exists c, sep = [c] /\ is_sep c = true).

(** The strings of the pattern: the optional group, then 7 to 15 digits,
    dashes or white spaces, and nothing else. *)
Definition phone_shape (s : string) : Prop :=
  exists prefix body,
    String.list_ascii_of_string s = prefix ++ body /\
    (prefix = [] \/ phone_prefix prefix) /\
    7 <= length body <= 15 /\
    Forall (fun c => is_phone_char c = true) body.

(** * Properties *)

(** Closes a goal from [H : k ∈ [k1; ...; kn]] when [k] is none of the
    listed constants. *)
Ltac absurd_elem H :=
  repeat (apply elem_of_cons in H as [H|H]; [discriminate H|]);
  by apply elem_of_nil in H.

(** Proves [k ∈ [k1; ...; kn]] for a constant [k] of the list. *)
Ltac in_list :=
  solve [repeat first [apply list_elem_of_here | apply list_elem_of_further]].

(** Proves [k ∈ l'] from [H : k ∈ l] for two constant lists, [l] within
    [l']. *)
Ltac in_larger_list H :=
  repeat (apply elem_of_cons in H as [->|H]; [in_list|]);
  by apply elem_of_nil in H.

(** ** Objects *)

Lemma get_lookup (o : obj) k v : o !! k = Some v -> get o k = v.
Proof. unfold get. by intros ->. Qed.

Lemma strict_eq_true a b : strict_eq a b = true <-> a = b.
Proof. unfold strict_eq. apply bool_decide_eq_true. Qed.

Lemma has_id_eq id u : has_id id u <-> get u "id" = id.
Proof. apply strict_eq_true. Qed.

Lemma lookup_updatedUser now (old user : obj) k :
  updatedUser now old user !! k =
    if decide (k = "updatedAt") then Some (VStr now)
    else match user !! k with
         | Some v => Some v
         | None => old !! k
         end.
Proof.
  unfold updatedUser, set_prop, spread.
  case_decide as Hk.
  - subst k. by rewrite lookup_insert_eq.
  - rewrite lookup_insert_ne by done.
    rewrite !lookup_union, lookup_empty.
    destruct (user !! k), (old !! k); done.
Qed.

Lemma lookup_newUser uuid created updated (user : obj) k :
  newUser uuid created updated user !! k =
    if decide (k = "updatedAt") then Some (VStr updated)
    else if decide (k = "createdAt") then Some (VStr created)
    else if decide (k = "id") then Some (VStr uuid)
    else user !! k.
Proof.
  unfold newUser, set_prop, spread.
  repeat case_decide; subst; simplify_map_eq; try done.
  rewrite lookup_union, lookup_empty. by destruct (user !! k).
Qed.

(** ** Searching the collection *)

(** What [find] and [findIndex] return is the first record with the
    identifier. *)
Lemma found_first id (us : list obj) i u :
  list_find (has_id id) us = Some (i, u) <->
  us !! i = Some u /\ get u "id" = id /\
  forall j v, us !! j = Some v -> j < i -> get v "id" <> id.
Proof.
  rewrite list_find_Some. setoid_rewrite has_id_eq. done.
Qed.

Lemma found_none id (us : list obj) :
  list_find (has_id id) us = None <-> forall u, u ∈ us -> get u "id" <> id.
Proof.
  rewrite list_find_None, Forall_forall. setoid_rewrite has_id_eq. done.
Qed.

Lemma found_some id (us : list obj) :
  (exists u, u ∈ us /\ get u "id" = id) ->
  exists i u, list_find (has_id id) us = Some (i, u).
Proof.
  intros (u & Hin & Hid).
  destruct (list_find_elem_of (has_id id) us u Hin) as [[i v] Hf].
  - by apply has_id_eq.
  - eauto.
Qed.

(** The three controllers on an identifier that [find] locates at index [i]. *)
Lemma getUserById_found id us i u :
  list_find (has_id id) us = Some (i, u) -> getUserById id us = Ok u.
Proof. unfold getUserById, find. by intros ->. Qed.

Lemma updateUser_found now id partial us i u :
  list_find (has_id id) us = Some (i, u) ->
  updateUser now id partial us =
    (Ok (updatedUser now u partial), <[i := updatedUser now u partial]> us).
Proof.
  intros Hf. unfold updateUser, findIndex. rewrite Hf. simpl.
  apply found_first in Hf as (-> & _). done.
Qed.

Lemma deleteUser_found id us i u :
  list_find (has_id id) us = Some (i, u) ->
  deleteUser id us = (Ok u, delete i us).
Proof.
  intros Hf. unfold deleteUser, findIndex. rewrite Hf. simpl.
  apply found_first in Hf as (-> & _). done.
Qed.

Lemma controllers_not_found now id partial us :
  list_find (has_id id) us = None ->
  getUserById id us = Throw NotFound /\
  updateUser now id partial us = (Throw NotFound, us) /\
  deleteUser id us = (Throw NotFound, us).
Proof.
  intros Hf. unfold getUserById, updateUser, deleteUser, find, findIndex.
  by rewrite Hf.
Qed.

(** ** createNewUser *)

(** C10. Whatever the input holds under [id], [createdAt] and [updatedAt],
    the record that [createNewUser] returns carries the generated
    identifier and the two readings of the clock; it is the record pushed
    at the end of the collection, and its other properties are those of
    the input. *)
Theorem create_overrides_generated_fields uuid created updated
    (user : obj) (us : list obj) :
  let '(r, us') := createNewUser uuid created updated user us in
  r !! "id" = Some (VStr uuid) /\
  r !! "createdAt" = Some (VStr created) /\
  r !! "updatedAt" = Some (VStr updated) /\
  us' = us ++ [r] /\
  last us' = Some r /\
  forall k, k ∉ ["id"; "createdAt"; "updatedAt"] -> r !! k = user !! k.
Proof.
  unfold createNewUser. rewrite !lookup_newUser. simpl.
  split_and!; try done.
  - by rewrite last_snoc.
  - intros k Hk. rewrite lookup_newUser.
    repeat case_decide; subst; try done; exfalso; apply Hk; in_list.
Qed.

(** ** updateUser *)

(** C2. When some record has the identifier, [updateUser] replaces the first
    such record, at its index, by the merge of that record and the partial:
    the collection keeps its length and its other elements, the merged
    record has the values of the partial where the partial (over firstName,
    lastName, email, phone) has a property, the old values elsewhere, and
    the reading of the clock as [updatedAt], also for the empty partial. *)
Theorem update_merges_in_place now (id : value) (partial : obj) (us : list obj) :
  (forall k, is_Some (partial !! k) -> k ∈ body_fields) ->
  (exists u, u ∈ us /\ get u "id" = id) ->
  exists i old new us',
    list_find (has_id id) us = Some (i, old) /\
    updateUser now id partial us = (Ok new, us') /\
    us' !! i = Some new /\
    length us' = length us /\
    (forall j, j <> i -> us' !! j = us !! j) /\
    (forall k v, partial !! k = Some v -> new !! k = Some v) /\
    (forall k, partial !! k = None -> k <> "updatedAt" -> new !! k = old !! k) /\
    new !! "updatedAt" = Some (VStr now) /\
    (partial = ∅ -> new = <["updatedAt" := VStr now]> old).
Proof.
  intros Hdom Hex.
  destruct (found_some id us Hex) as (i & old & Hf).
  exists i, old, (updatedUser now old partial),
    (<[i := updatedUser now old partial]> us).
  pose proof Hf as (Hi & _ & _)%found_first.
  split_and!.
  - done.
  - by apply updateUser_found.
  - apply list_lookup_insert_eq. by eapply lookup_lt_Some.
  - apply length_insert.
  - intros j Hj. by apply list_lookup_insert_ne.
  - intros k v Hk. rewrite lookup_updatedUser, Hk.
    case_decide as Hu; [|done]. subst k.
    specialize (Hdom "updatedAt" (mk_is_Some _ _ Hk)).
    unfold body_fields in Hdom. absurd_elem Hdom.
  - intros k Hk Hne. rewrite lookup_updatedUser, Hk. by case_decide.
  - rewrite lookup_updatedUser. by case_decide.
  - intros ->. apply map_eq. intros k. rewrite lookup_updatedUser, lookup_empty.
    case_decide as Hk.
    + subst k. by rewrite lookup_insert_eq.
    + by rewrite lookup_insert_ne.
Qed.

(** ** NotFound *)

(** C3. The three controllers fail with NotFound, leaving the collection as
    it is, when no stored record has the identifier, and return a record
    when one has; in particular they fail on the empty collection, and, the
    stored identifiers being non-empty strings, on the empty string, [null]
    and [undefined]. *)
Theorem not_found_exactly now (partial : obj) (id : value) (us : list obj) :
  ((forall u, u ∈ us -> get u "id" <> id) ->
     getUserById id us = Throw NotFound /\
     updateUser now id partial us = (Throw NotFound, us) /\
     deleteUser id us = (Throw NotFound, us)) /\
  ((exists u, u ∈ us /\ get u "id" = id) ->
     exists r ru rd us1 us2,
       getUserById id us = Ok r /\ get r "id" = id /\
       updateUser now id partial us = (Ok ru, us1) /\
       deleteUser id us = (Ok rd, us2)) /\
  (getUserById id [] = Throw NotFound /\
   updateUser now id partial [] = (Throw NotFound, []) /\
   deleteUser id [] = (Throw NotFound, [])) /\
  ((forall u, u ∈ us -> exists s, get u "id" = VStr s /\ s <> "") ->
   forall id', id' ∈ [VStr ""; VNull; VUndefined] ->
     getUserById id' us = Throw NotFound /\
     updateUser now id' partial us = (Throw NotFound, us) /\
     deleteUser id' us = (Throw NotFound, us)).
Proof.
  split; [|split; [|split]].
  - intros Hno. by apply controllers_not_found, found_none.
  - intros Hex. destruct (found_some id us Hex) as (i & u & Hf).
    pose proof Hf as (_ & Hid & _)%found_first.
    eexists u, _, u, _, _. split_and!; [|done| |].
    + by eapply getUserById_found.
    + by eapply updateUser_found.
    + by eapply deleteUser_found.
  - done.
  - intros Hstr id' Hid'. apply controllers_not_found, found_none.
    intros u Hu Heq. destruct (Hstr u Hu) as (s & Hs & Hne).
    rewrite Hs in Heq. subst id'.
    apply elem_of_cons in Hid' as [Hid'|Hid']; [by simplify_eq|].
    apply elem_of_cons in Hid' as [Hid'|Hid']; [done|].
    apply elem_of_cons in Hid' as [Hid'|Hid']; [done|].
    by apply elem_of_nil in Hid'.
Qed.

(** ** deleteUser *)

(** C7, as the code has it. When some record has the identifier,
    [deleteUser] returns the first such record and removes it: the
    collection is one shorter, the other records keep their order, and a
    later [getUserById] of the identifier fails with NotFound provided no
    other stored record has the same identifier. *)
Theorem delete_removes_first (id : value) (us : list obj) :
  (exists u, u ∈ us /\ get u "id" = id) ->
  exists i u,
    list_find (has_id id) us = Some (i, u) /\
    deleteUser id us = (Ok u, delete i us) /\
    get u "id" = id /\
    S (length (delete i us)) = length us /\
    delete i us = take i us ++ drop (S i) us /\
    delete i us `sublist_of` us /\
    ((forall j v, us !! j = Some v -> j <> i -> get v "id" <> id) ->
       getUserById id (delete i us) = Throw NotFound) /\
    (NoDup (ids us) -> getUserById id (delete i us) = Throw NotFound).
Proof.
  intros Hex. destruct (found_some id us Hex) as (i & u & Hf).
  exists i, u. pose proof Hf as (Hi & Hid & Hleast)%found_first.
  assert (Hother : (forall j v, us !! j = Some v -> j <> i -> get v "id" <> id) ->
                   getUserById id (delete i us) = Throw NotFound).
  { intros Hno. eapply (controllers_not_found "" id ∅), found_none.
    intros v (j & Hj)%list_elem_of_lookup.
    destruct (decide (j < i)) as [Hlt|Hge].
    - rewrite list_lookup_delete_lt in Hj by done. apply (Hno j v Hj). lia.
    - rewrite list_lookup_delete_ge in Hj by lia. apply (Hno (S j) v Hj). lia. }
  split_and!; try done.
  - by apply deleteUser_found.
  - rewrite length_delete by eauto. apply lookup_lt_Some in Hi. lia.
  - apply delete_take_drop.
  - apply sublist_delete.
  - intros Hnd. apply Hother. intros j v Hj Hne Hv.
    apply Hne. eapply (NoDup_lookup (ids us) j i id); [done| |].
    + unfold ids. by rewrite list_lookup_fmap, Hj; simpl; rewrite Hv.
    + unfold ids. by rewrite list_lookup_fmap, Hi; simpl; rewrite Hid.
Qed.

(** ** Validation *)

Section Validation.
Context `{Formats}.

Lemma validateRequest_Next (o : object_schema) raw body :
  validateRequest o raw = Next body <->
  object_errors o raw = [] /\ body = strip_unknown o raw.
Proof.
  unfold validateRequest, validate. case_bool_decide as He.
  - split; [intros [= <-]; done | intros [_ ->]; done].
  - split; [done | intros [? _]; done].
Qed.

Lemma validateRequest_BadRequest (o : object_schema) raw details :
  validateRequest o raw = BadRequest details <->
  object_errors o raw <> [] /\ details = errorDetails (object_errors o raw).
Proof.
  unfold validateRequest, validate. case_bool_decide as He.
  - split; [done | intros [? _]; done].
  - split; [intros [= <-]; done | intros [_ ->]; done].
Qed.

Lemma lookup_strip_unknown (o : object_schema) (raw : obj) k :
  strip_unknown o raw !! k = if decide (k ∈ o.*1) then raw !! k else None.
Proof.
  unfold strip_unknown. case_decide as Hk.
  - destruct (raw !! k) as [v|] eqn:Hr.
    + by apply map_lookup_filter_Some.
    + apply map_lookup_filter_None. left. done.
  - apply map_lookup_filter_None. right. intros v _. done.
Qed.

Lemma errorDetails_path (s : schema) k v d :
  d ∈ errorDetails (validate_string s [k] v) -> path d = k.
Proof.
  unfold errorDetails. intros (e & -> & He)%list_elem_of_fmap. simpl.
  assert (item_path e = [k]) as ->; [|done].
  destruct v as [| | | |x]; simpl in He.
  - destruct (flag_presence s); [by apply elem_of_nil in He|].
    by apply list_elem_of_singleton in He as ->.
  - by apply list_elem_of_singleton in He as ->.
  - by apply list_elem_of_singleton in He as ->.
  - by apply list_elem_of_singleton in He as ->.
  - destruct x as [|c x].
    + by apply list_elem_of_singleton in He as ->.
    + unfold rule_errors in He. apply list_elem_of_omap in He as (r & _ & Hr).
      destruct (rule_test r _); by simplify_eq.
Qed.

Lemma length_rule_errors (s : schema) p x :
  length (rule_errors s p x) = length (failing_rules s x).
Proof.
  unfold rule_errors, failing_rules.
  induction (rules s) as [|r rs IH]; [done|]. cbn.
  destruct (rule_test r x); cbn; by rewrite <- IH.
Qed.

Lemma failing_rules_nil (s : schema) x :
  failing_rules s x = [] <-> Forall (fun r => rule_test r x = true) (rules s).
Proof.
  unfold failing_rules. induction (rules s) as [|r rs IH]; simpl.
  - split; [constructor | done].
  - destruct (rule_test r x) eqn:Hr; simpl.
    + rewrite IH. split; [by constructor | by inversion 1].
    + split; [done | inversion 1; congruence].
Qed.

(** A field yields no error exactly when its value satisfies its
    constraint. *)
Lemma validate_string_nil (s : schema) p v :
  validate_string s p v = [] <-> accepts s v.
Proof.
  destruct v as [| | | |x]; simpl; try (split; [done | intros []]).
  - destruct (flag_presence s); split; done.
  - destruct x as [|c x].
    + split; [done | intros [? _]; done].
    + split.
      * intros He. split; [done|].
        apply failing_rules_nil, length_zero_iff_nil.
        by rewrite <- (length_rule_errors s p), He.
      * intros [_ HF%failing_rules_nil]. apply length_zero_iff_nil.
        by rewrite length_rule_errors, HF.
Qed.

Lemma object_errors_nil (o : object_schema) raw :
  object_errors o raw = [] <->
  forall k s, (k, s) ∈ o -> accepts s (get raw k).
Proof.
  unfold object_errors. induction o as [|[k s] o IH]; simpl.
  - split; [intros _ k s Hin; by apply elem_of_nil in Hin | done].
  - rewrite app_nil, validate_string_nil, IH. split.
    + intros [Hk Ho] k' s' [Heq|Hin]%elem_of_cons; [by simplify_eq | eauto].
    + intros Hall. split; [apply Hall; left | intros; apply Hall; by right].
Qed.

Lemma errorDetails_object_errors (o : object_schema) raw :
  errorDetails (object_errors o raw) = List.concat (field_details raw <$> o).
Proof.
  unfold object_errors, errorDetails, field_details.
  induction o as [|[k s] o IH]; [done|]. simpl.
  by rewrite fmap_app, IH.
Qed.

End Validation.

Section Schemas.
Context `{Formats}.

Lemma not_email_bad : isEmail "bad" = false.
Proof.
  destruct (isEmail "bad") eqn:He; [|done].
  apply isEmail_at in He. vm_compute in He. done.
Qed.

(** C4. The details of the 400 response are the details of the fields, one
    block per declared key in declaration order: the entries of a block
    carry the path of its key, a block is empty exactly when the value
    satisfies the constraint of the field, and for a non-empty string it has
    one entry per violated rule. On the body with the bad e-mail address and
    the bad phone number the response has the two entries for [email] and
    [phone], in that order. *)
Theorem validation_reports_every_field (o : object_schema) (raw : obj) :
  let blocks := field_details raw <$> o in
  validateRequest o raw =
    (if decide (List.concat blocks = []) then Next (strip_unknown o raw)
     else BadRequest (List.concat blocks)) /\
  (forall i k s, o !! i = Some (k, s) ->
     exists b, blocks !! i = Some b /\
       (forall d, d ∈ b -> path d = k) /\
       (b = [] <-> accepts s (get raw k)) /\
       (forall x, get raw k = VStr x -> x <> "" ->
          length b = length (failing_rules s x))) /\
  validateRequest userCreateSchema alice_bad =
    BadRequest [ {| path := "email"; message := "Invalid email address" |};
                 {| path := "phone"; message := "Invalid phone number" |} ].
Proof.
  intros blocks. split; [|split].
  - unfold blocks. rewrite <- errorDetails_object_errors.
    unfold validateRequest, validate.
    case_bool_decide as He; case_decide as Hd; try done.
    + by rewrite He in Hd.
    + destruct (object_errors o raw); done.
  - intros i k s Hi. exists (field_details raw (k, s)). split_and!.
    + unfold blocks. by rewrite list_lookup_fmap, Hi.
    + intros d. apply errorDetails_path.
    + unfold field_details, errorDetails. simpl.
      rewrite <- validate_string_nil. split.
      * by intros ?%fmap_nil_inv.
      * by intros ->.
    + intros x Hx Hne. unfold field_details, errorDetails. simpl.
      rewrite length_fmap, Hx. destruct x; [done|]. apply length_rule_errors.
  - pose proof not_email_bad as He. vm_compute. vm_compute in He.
    by rewrite He.
Qed.

(** C9. The user-update schema accepts every payload from which firstName,
    lastName, email and phone are absent, the empty one included; an e-mail
    address or a phone number that is present is accepted exactly when it
    has the format. *)
Theorem update_schema_all_optional (raw : obj) :
  ((forall k, k ∈ body_fields -> raw !! k = None) ->
     validateRequest userUpdateSchema raw = Next ∅) /\
  validateRequest userUpdateSchema ∅ = Next ∅ /\
  (forall e, e <> "" ->
     validateRequest userUpdateSchema {["email" := VStr e]} =
       if isEmail e then Next {["email" := VStr e]}
       else BadRequest [ {| path := "email"; message := "Invalid email address" |} ]) /\
  (forall p, p <> "" ->
     validateRequest userUpdateSchema {["phone" := VStr p]} =
       if phone_pattern p then Next {["phone" := VStr p]}
       else BadRequest [ {| path := "phone"; message := "Invalid phone number" |} ]).
Proof.
  assert (Habsent : forall raw : obj,
            (forall k, k ∈ body_fields -> raw !! k = None) ->
            validateRequest userUpdateSchema raw = Next ∅).
  { intros m Hm. apply validateRequest_Next. split.
    - apply object_errors_nil. intros k s Hin.
      assert (Hk : k ∈ body_fields).
      { apply (list_elem_of_fmap_2 fst) in Hin. exact Hin. }
      unfold get. rewrite (Hm k Hk). simpl.
      repeat (apply elem_of_cons in Hin as [Hin|Hin]; [by simplify_eq|]).
      by apply elem_of_nil in Hin.
    - symmetry. apply map_eq. intros k.
      rewrite lookup_strip_unknown, lookup_empty.
      case_decide as Hk; [|done]. by apply Hm. }
  split_and!.
  - apply Habsent.
  - apply Habsent. intros k _. apply lookup_empty.
  - intros e He. destruct e as [|c e]; [done|].
    unfold validateRequest, validate.
    assert (strip_unknown userUpdateSchema {["email" := VStr (String c e)]}
            = {["email" := VStr (String c e)]}) as ->.
    { apply map_eq. intros k. rewrite lookup_strip_unknown.
      case_decide as Hk; [done|]. symmetry. apply lookup_singleton_None.
      intros <-. apply Hk. vm_compute. in_list. }
    assert (object_errors userUpdateSchema {["email" := VStr (String c e)]}
            = rule_errors emailSchema ["email"] (String c e)) as ->.
    { unfold object_errors, userUpdateSchema, userBaseSchema, Joi_object.
      cbn [flat_map]. unfold get. simplify_map_eq. by rewrite ?app_nil_r. }
    unfold rule_errors, emailSchema. cbn.
    destruct (isEmail (String c e)); done.
  - intros p Hp. destruct p as [|c p]; [done|].
    unfold validateRequest, validate.
    assert (strip_unknown userUpdateSchema {["phone" := VStr (String c p)]}
            = {["phone" := VStr (String c p)]}) as ->.
    { apply map_eq. intros k. rewrite lookup_strip_unknown.
      case_decide as Hk; [done|]. symmetry. apply lookup_singleton_None.
      intros <-. apply Hk. vm_compute. in_list. }
    assert (object_errors userUpdateSchema {["phone" := VStr (String c p)]}
            = rule_errors phoneSchema ["phone"] (String c p)) as ->.
    { unfold object_errors, userUpdateSchema, userBaseSchema, Joi_object.
      cbn [flat_map]. unfold get. simplify_map_eq. by rewrite ?app_nil_r. }
    unfold rule_errors, phoneSchema. cbn.
    destruct (phone_pattern (String c p)); done.
Qed.

End Schemas.

(** ** The handlers on validated bodies *)

Section Handlers.
Context `{Formats}.

(** A sanitized body has the four declared properties at most. *)
Lemma sanitized_update raw body :
  validateRequest userUpdateSchema raw = Next body ->
  forall k, is_Some (body !! k) -> k ∈ body_fields.
Proof.
  intros (_ & ->)%validateRequest_Next k [v Hk].
  rewrite lookup_strip_unknown in Hk. by case_decide.
Qed.

Lemma sanitized_create raw body :
  validateRequest userCreateSchema raw = Next body ->
  forall k, is_Some (body !! k) -> k ∈ body_fields.
Proof.
  intros (_ & ->)%validateRequest_Next k [v Hk].
  rewrite lookup_strip_unknown in Hk. by case_decide.
Qed.

Lemma post_route_valid uuid created updated raw body us :
  validateRequest userCreateSchema raw = Next body ->
  post_route uuid created updated raw us =
    (Send 201 (newUser uuid created updated body),
     us ++ [newUser uuid created updated body]).
Proof. intros Hv. unfold post_route. by rewrite Hv. Qed.

Lemma is_random_uuid_nonempty uuid : is_random_uuid uuid = true -> uuid <> "".
Proof. by intros Hu ->. Qed.

(** C1, as the code has it. On a body that went through the validation
    against the user-update schema, whatever the raw body held under [id]
    and [createdAt], [updateUser] returns and stores a record with the [id]
    and the [createdAt] of the record it replaces. *)
Theorem update_keeps_id_and_createdAt now (id : value) (raw body : obj)
    (us : list obj) :
  validateRequest userUpdateSchema raw = Next body ->
  (exists u, u ∈ us /\ get u "id" = id) ->
  exists i old new us',
    list_find (has_id id) us = Some (i, old) /\
    updateUser now id body us = (Ok new, us') /\
    us' !! i = Some new /\
    new !! "id" = old !! "id" /\
    get new "id" = id /\
    new !! "createdAt" = old !! "createdAt".
Proof.
  intros Hv Hex. pose proof (sanitized_update raw body Hv) as Hdom.
  destruct (update_merges_in_place now id body us Hdom Hex)
    as (i & old & new & us' & Hf & Hu & Hi & _ & _ & _ & Hkeep & _).
  assert (Hnone : forall k, k ∉ body_fields -> body !! k = None).
  { intros k Hk. destruct (body !! k) eqn:Hb; [|done].
    destruct Hk. apply Hdom. by rewrite Hb. }
  assert (Hid : new !! "id" = old !! "id").
  { apply Hkeep; [|done]. apply Hnone. intros Hin. absurd_elem Hin. }
  exists i, old, new, us'. split_and!; try done.
  - apply found_first in Hf as (_ & Hold & _).
    unfold get in *. by rewrite Hid.
  - apply Hkeep; [|done]. apply Hnone. intros Hin. absurd_elem Hin.
Qed.

(** C5, as the code has it by design. On a body valid for the user-create
    schema the POST handler answers 201 with the new record, pushed at the
    end of the collection. Its [id] is the generated identifier, which is not
    empty, and differs from every stored one when the generator returned a
    fresh one; and it has no property outside the seven of a user. *)
Theorem create_valid_input uuid created updated (raw body : obj)
    (us : list obj) :
  validateRequest userCreateSchema raw = Next body ->
  is_random_uuid uuid = true ->
  exists r,
    post_route uuid created updated raw us = (Send 201 r, us ++ [r]) /\
    createNewUser uuid created updated body us = (r, us ++ [r]) /\
    get r "id" = VStr uuid /\ uuid <> "" /\
    (fresh uuid us -> forall u, u ∈ us -> get u "id" <> get r "id") /\
    (forall k, is_Some (r !! k) -> k ∈ user_fields) /\
    (forall k, k ∉ user_fields -> r !! k = None).
Proof.
  intros Hv Hu. exists (newUser uuid created updated body).
  assert (Hfields : forall k, is_Some (newUser uuid created updated body !! k) ->
                              k ∈ user_fields).
  { intros k. rewrite lookup_newUser. unfold user_fields.
    repeat case_decide; subst; try (intros _; in_list).
    intros Hk%(sanitized_create raw body Hv). unfold body_fields in Hk.
    in_larger_list Hk. }
  assert (Hid : get (newUser uuid created updated body) "id" = VStr uuid).
  { apply get_lookup. by rewrite lookup_newUser. }
  split_and!.
  - by apply post_route_valid.
  - done.
  - done.
  - by apply is_random_uuid_nonempty.
  - intros Hfresh u Hu' Heq. rewrite Hid in Heq. apply Hfresh.
    unfold ids. apply list_elem_of_fmap. eauto.
  - done.
  - intros k Hk. destruct (newUser uuid created updated body !! k) eqn:Hr; [|done].
    destruct Hk. apply Hfields. by rewrite Hr.
Qed.

(** C8, as the code has it. After the POST handler created a record from a
    valid body, with an identifier that no stored record had,
    [getUserById] of the identifier of that record returns the record. *)
Theorem create_then_read uuid created updated (raw body : obj)
    (us : list obj) :
  validateRequest userCreateSchema raw = Next body ->
  fresh uuid us ->
  exists r us',
    post_route uuid created updated raw us = (Send 201 r, us') /\
    getUserById (get r "id") us' = Ok r.
Proof.
  intros Hv Hfresh.
  exists (newUser uuid created updated body),
    (us ++ [newUser uuid created updated body]).
  split; [by apply post_route_valid|].
  assert (Hid : get (newUser uuid created updated body) "id" = VStr uuid).
  { apply get_lookup. by rewrite lookup_newUser. }
  rewrite Hid. unfold getUserById, find.
  rewrite list_find_app_r.
  - simpl. case_decide as Hd; [done|]. destruct Hd. by apply has_id_eq.
  - apply found_none. intros u Hu Heq. apply Hfresh.
    unfold ids. apply list_elem_of_fmap. eauto.
Qed.

End Handlers.

(** ** The order on timestamps *)

Lemma ascii_compare_refl c : Ascii.compare c c = Eq.
Proof. unfold Ascii.compare. apply N.compare_refl. Qed.

Lemma string_compare_refl s : String.compare s s = Eq.
Proof. induction s as [|c s IH]; simpl; [done|]. by rewrite ascii_compare_refl. Qed.

Lemma string_leb_refl s : String.leb s s = true.
Proof. unfold String.leb. by rewrite string_compare_refl. Qed.

Lemma ascii_compare_trans c1 c2 c3 :
  Ascii.compare c1 c2 <> Gt -> Ascii.compare c2 c3 <> Gt ->
  Ascii.compare c1 c3 <> Gt /\
  (Ascii.compare c1 c3 = Eq ->
   Ascii.compare c1 c2 = Eq /\ Ascii.compare c2 c3 = Eq).
Proof.
  unfold Ascii.compare.
  rewrite !N.compare_gt_iff, !N.compare_eq_iff. lia.
Qed.

Lemma string_compare_trans s1 : forall s2 s3,
  String.compare s1 s2 <> Gt -> String.compare s2 s3 <> Gt ->
  String.compare s1 s3 <> Gt.
Proof.
  induction s1 as [|c1 s1 IH]; intros [|c2 s2] [|c3 s3]; simpl; try done.
  intros H12 H23.
  assert (Hc12 : Ascii.compare c1 c2 <> Gt) by (destruct (Ascii.compare c1 c2); done).
  assert (Hc23 : Ascii.compare c2 c3 <> Gt) by (destruct (Ascii.compare c2 c3); done).
  destruct (ascii_compare_trans c1 c2 c3 Hc12 Hc23) as [Hc13 Heq].
  destruct (Ascii.compare c1 c3) eqn:H13; try done.
  destruct Heq as [E12 E23]; [done|]. rewrite E12 in H12. rewrite E23 in H23.
  by apply IH with s2.
Qed.

Lemma string_leb_trans s1 s2 s3 :
  String.leb s1 s2 = true -> String.leb s2 s3 = true -> String.leb s1 s3 = true.
Proof.
  unfold String.leb. intros H12 H23.
  pose proof (string_compare_trans s1 s2 s3) as Ht.
  destruct (String.compare s1 s2), (String.compare s2 s3),
    (String.compare s1 s3); try done; exfalso; by apply Ht.
Qed.

Lemma ts_le_trans a b c :
  ts_le a (VStr b) = true -> String.leb b c = true -> ts_le a (VStr c) = true.
Proof. destruct a; simpl; try done. apply string_leb_trans. Qed.

(** ** The records of a run *)

Lemma lookup_mkUser i f l e p c u k :
  mkUser i f l e p c u !! k =
    if decide (k = "id") then Some (VStr i)
    else if decide (k = "firstName") then Some (VStr f)
    else if decide (k = "lastName") then Some (VStr l)
    else if decide (k = "email") then Some (VStr e)
    else if decide (k = "phone") then Some (VStr p)
    else if decide (k = "createdAt") then Some (VStr c)
    else if decide (k = "updatedAt") then Some (VStr u)
    else None.
Proof.
  unfold mkUser. simpl. repeat case_decide; subst; by simplify_map_eq.
Qed.

(** A record with the seven properties of [User] is well formed when its
    timestamps are in order. *)
Lemma mkUser_full i f l e p c u :
  String.leb c u = true -> full_record (mkUser i f l e p c u).
Proof.
  intros Hcu. split.
  - intros k Hk. unfold populated. rewrite lookup_mkUser.
    unfold user_fields in Hk.
    repeat (apply elem_of_cons in Hk as [->|Hk]; [simpl; eauto|]).
    by apply elem_of_nil in Hk.
  - unfold get. rewrite !lookup_mkUser. simpl. done.
Qed.

Lemma mkUser_stored i f l e p c u :
  String.leb c u = true -> stored_record (mkUser i f l e p c u).
Proof.
  intros Hcu. split_and!.
  - intros k Hk. unfold populated. rewrite lookup_mkUser.
    unfold core_fields in Hk.
    repeat (apply elem_of_cons in Hk as [->|Hk]; [simpl; eauto|]).
    by apply elem_of_nil in Hk.
  - intros k v. rewrite lookup_mkUser. unfold user_fields.
    repeat case_decide; subst; intros [= <-]; (split; [in_list | eauto]).
  - unfold get. rewrite !lookup_mkUser. simpl. done.
Qed.

(** A full record is a stored record when it has nothing else. *)
Lemma full_record_core u :
  full_record u -> forall k, k ∈ core_fields -> populated u k.
Proof.
  intros [Hall _] k Hk. apply Hall. unfold core_fields in Hk.
  unfold user_fields. in_larger_list Hk.
Qed.

Lemma invariant_seed : invariant seed_time users.
Proof.
  split_and!.
  - unfold users.
    repeat (apply Forall_cons_2; [by apply mkUser_stored|]). apply Forall_nil_2.
  - apply (bool_decide_unpack (NoDup (ids users))). by vm_compute.
  - unfold users.
    repeat (apply Forall_cons_2; [by vm_compute|]). apply Forall_nil_2.
Qed.

Lemma invariant_clock clock clock' us :
  String.leb clock clock' = true -> invariant clock us -> invariant clock' us.
Proof.
  intros Hle (Hrec & Hnd & Hts). split_and!; [done..|].
  eapply Forall_impl; [exact Hts|]. intros u Hu. simpl in Hu.
  by eapply ts_le_trans.
Qed.

Section Run.
Context `{Formats}.

(** The values of a sanitized JSON body are strings under declared keys. *)
Lemma sanitized_strings (o : object_schema) raw body :
  validateRequest o raw = Next body -> is_json raw ->
  forall k v, body !! k = Some v -> k ∈ o.*1 /\ exists x, v = VStr x.
Proof.
  intros (Herr & ->)%validateRequest_Next Hjson k v Hk.
  rewrite lookup_strip_unknown in Hk. case_decide as Hin; [|done].
  split; [done|].
  apply list_elem_of_fmap in Hin as ([k' s] & -> & Hin). simpl in Hk.
  pose proof (proj1 (object_errors_nil o raw) Herr k' s Hin) as Hacc.
  rewrite (get_lookup raw k' v Hk) in Hacc.
  pose proof (map_Forall_lookup_1 _ raw k' v Hjson Hk) as Hdef. simpl in Hdef.
  destruct v; try done. eauto.
Qed.

(** A required key is present in a sanitized body, with a string. *)
Lemma sanitized_required (o : object_schema) raw body k s :
  validateRequest o raw = Next body ->
  (k, s) ∈ o -> flag_presence s = Required ->
  exists x, body !! k = Some (VStr x).
Proof.
  intros (Herr & ->)%validateRequest_Next Hin Hreq.
  pose proof (proj1 (object_errors_nil o raw) Herr k s Hin) as Hacc.
  rewrite lookup_strip_unknown. rewrite decide_True.
  - unfold get in Hacc. destruct (raw !! k) as [v|]; simpl in Hacc.
    + destruct v; try done; [congruence | eauto].
    + congruence.
  - by apply (list_elem_of_fmap_2 fst) in Hin.
Qed.

Lemma stored_newUser uuid created updated raw body :
  validateRequest userCreateSchema raw = Next body -> is_json raw ->
  String.leb created updated = true ->
  stored_record (newUser uuid created updated body).
Proof.
  intros Hv Hjson Hle.
  destruct (sanitized_required userCreateSchema raw body "firstName"
              (required Joi_string) Hv) as [f Hf]; [in_list | done |].
  destruct (sanitized_required userCreateSchema raw body "lastName"
              (required Joi_string) Hv) as [l Hl]; [in_list | done |].
  split_and!.
  - intros k Hk. unfold populated. rewrite lookup_newUser.
    unfold core_fields in Hk.
    repeat (apply elem_of_cons in Hk as [->|Hk]; [simpl; eauto|]).
    by apply elem_of_nil in Hk.
  - intros k v. rewrite lookup_newUser. unfold user_fields.
    repeat case_decide; subst; try (intros [= <-]; split; [in_list | eauto]).
    intros Hk. destruct (sanitized_strings _ raw body Hv Hjson k v Hk) as [Hin Hs].
    split; [|done]. change (k ∈ body_fields) in Hin. unfold body_fields in Hin.
    in_larger_list Hin.
  - unfold get. rewrite !lookup_newUser. simpl. done.
Qed.

Lemma stored_updatedUser now raw body old :
  validateRequest userUpdateSchema raw = Next body -> is_json raw ->
  stored_record old ->
  ts_le (get old "createdAt") (VStr now) = true ->
  stored_record (updatedUser now old body) /\
  get (updatedUser now old body) "id" = get old "id" /\
  get (updatedUser now old body) "createdAt" = get old "createdAt".
Proof.
  intros Hv Hjson (Hcore & Hall & Hts) Hnow.
  assert (Hnone : forall k, k ∉ body_fields -> body !! k = None).
  { intros k Hk. destruct (body !! k) eqn:Hb; [|done].
    destruct Hk. apply (sanitized_update raw body Hv). by rewrite Hb. }
  assert (Hid : updatedUser now old body !! "id" = old !! "id").
  { rewrite lookup_updatedUser, Hnone; [done|]. intros Hin. absurd_elem Hin. }
  assert (Hcr : updatedUser now old body !! "createdAt" = old !! "createdAt").
  { rewrite lookup_updatedUser, Hnone; [done|]. intros Hin. absurd_elem Hin. }
  assert (Hup : updatedUser now old body !! "updatedAt" = Some (VStr now)).
  { by rewrite lookup_updatedUser. }
  split; [split_and!|split].
  - intros k Hk. unfold populated. rewrite lookup_updatedUser.
    case_decide as Hu; [eauto|].
    destruct (body !! k) as [v|] eqn:Hb; [|by apply Hcore].
    destruct (sanitized_strings _ raw body Hv Hjson k v Hb) as (_ & x & ->).
    eauto.
  - intros k v. rewrite lookup_updatedUser.
    case_decide as Hu; [subst; intros [= <-]; split; [in_list | eauto]|].
    destruct (body !! k) as [w|] eqn:Hb; [|by apply Hall].
    intros [= <-].
    destruct (sanitized_strings _ raw body Hv Hjson k w Hb) as (Hin & Hs).
    split; [|done]. change (k ∈ body_fields) in Hin. unfold body_fields in Hin.
    unfold user_fields. in_larger_list Hin.
  - unfold get. rewrite Hcr, Hup. exact Hnow.
  - unfold get. by rewrite Hid.
  - unfold get. by rewrite Hcr.
Qed.

Lemma invariant_post clock us uuid created updated body :
  invariant clock us -> is_json body -> fresh uuid us ->
  String.leb clock created = true -> String.leb created updated = true ->
  invariant updated (post_route uuid created updated body us).2.
Proof.
  intros Hinv Hjson Hfresh Hc1 Hc2.
  assert (Hc : String.leb clock updated = true) by by eapply string_leb_trans.
  unfold post_route.
  destruct (validateRequest userCreateSchema body) as [value|details] eqn:Hv;
    simpl; [|by eapply invariant_clock].
  apply (invariant_clock clock updated us Hc) in Hinv as (Hrec & Hnd & Hts).
  split_and!.
  - apply Forall_app. split; [done|]. constructor; [|done].
    by eapply stored_newUser.
  - unfold ids. rewrite fmap_app. apply NoDup_app. split_and!; [done| |].
    + intros v Hv' Hin. simpl in Hin. apply list_elem_of_singleton in Hin.
      subst v. apply Hfresh. unfold get in Hv'.
      by rewrite lookup_newUser in Hv'.
    + simpl. apply NoDup_singleton.
  - apply Forall_app. split; [done|]. constructor; [|done].
    unfold get. by rewrite lookup_newUser.
Qed.

Lemma invariant_patch clock us now params body :
  invariant clock us -> is_json body -> String.leb clock now = true ->
  invariant now (patch_route now params body us).2.
Proof.
  intros Hinv Hjson Hc.
  apply (invariant_clock clock now us Hc) in Hinv.
  unfold patch_route.
  destruct (validateRequest userIdSchema params) as [ps|?]; [|done].
  destruct (validateRequest userUpdateSchema body) as [value|?] eqn:Hv; [|done].
  destruct (list_find (has_id (get ps "id")) us) as [[i old]|] eqn:Hf.
  - rewrite (updateUser_found _ _ _ _ _ _ Hf). simpl.
    apply found_first in Hf as (Hi & _ & _).
    destruct Hinv as (Hrec & Hnd & Hts).
    pose proof (Forall_lookup_1 _ _ _ _ Hrec Hi) as Hold.
    pose proof (Forall_lookup_1 _ _ _ _ Hts Hi) as Hold_ts. simpl in Hold_ts.
    destruct (stored_updatedUser now body value old Hv Hjson Hold Hold_ts)
      as (Hnew & Hid & Hcr).
    split_and!.
    + by apply Forall_insert.
    + unfold ids. rewrite list_fmap_insert, Hid, list_insert_id; [done|].
      by rewrite list_lookup_fmap, Hi.
    + apply Forall_insert; [done|]. by rewrite Hcr.
  - destruct (controllers_not_found now _ value us Hf) as (_ & -> & _). done.
Qed.

Lemma invariant_delete clock us params :
  invariant clock us -> invariant clock (delete_route params us).2.
Proof.
  intros Hinv. unfold delete_route.
  destruct (validateRequest userIdSchema params) as [ps|?]; [|done].
  destruct (list_find (has_id (get ps "id")) us) as [[i old]|] eqn:Hf.
  - rewrite (deleteUser_found _ _ _ _ Hf). simpl.
    destruct Hinv as (Hrec & Hnd & Hts). split_and!.
    + by apply Forall_delete.
    + unfold ids. rewrite list_fmap_delete.
      exact (sublist_NoDup _ _ Hnd (sublist_delete _ _)).
    + by apply Forall_delete.
  - destruct (controllers_not_found "" _ ∅ us Hf) as (_ & _ & ->). done.
Qed.

Lemma reachable_invariant clock us : reachable clock us -> invariant clock us.
Proof.
  induction 1 as [|clock us uuid created updated body _ IH Hj _ Hf Hc1 Hc2
                  |clock us now params body _ IH Hj Hc
                  |clock us params _ IH].
  - apply invariant_seed.
  - by apply (invariant_post clock).
  - by apply (invariant_patch clock).
  - by apply invariant_delete.
Qed.

(** C6, as the code has it. In every state reached from the seeded
    collection by POST, PATCH and DELETE requests, generated identifiers
    being fresh and the clock monotone, every stored record has [id],
    [firstName], [lastName], [createdAt] and [updatedAt] populated, holds
    strings only and nothing outside the seven properties of a user, has its
    [createdAt] not after its [updatedAt], and no two stored records share an
    identifier. *)
Theorem reachable_records_well_formed clock (us : list obj) :
  reachable clock us ->
  Forall stored_record us /\
  (forall i j u v, us !! i = Some u -> us !! j = Some v ->
     get u "id" = get v "id" -> i = j) /\
  NoDup (ids us).
Proof.
  intros (Hrec & Hnd & _)%reachable_invariant. split_and!; [done| |done].
  intros i j u v Hi Hj Heq.
  eapply (NoDup_lookup (ids us) i j (get u "id")); [done| |].
  - unfold ids. by rewrite list_lookup_fmap, Hi.
  - unfold ids. by rewrite list_lookup_fmap, Hj; simpl; rewrite Heq.
Qed.

End Run.

(** * The theorems on concrete inputs *)

(** ** C1 *)

(** Given directly to [updateUser], a partial with [id] and [createdAt]
    replaces both: the record with identifier 1 comes back with identifier 2
    and the supplied [createdAt]. *)
Lemma update_overwrites_supplied_id :
  exists new,
    updateUser mockDateString (VStr "1") patch_with_id [john; jane; bob]
      = (Ok new, [new; jane; bob]) /\
    get john "id" = VStr "1" /\
    get new "id" = VStr "2" /\
    get new "createdAt" = VStr "1999-12-31T23:59:59.000Z" /\
    get new "createdAt" <> get john "createdAt".
Proof.
  exists (updatedUser mockDateString john patch_with_id).
  split_and!; by vm_compute.
Qed.

Lemma update_keeps_id_and_createdAt_witness :
  exists i old new us',
    list_find (has_id (VStr "1")) [john; jane; bob] = Some (i, old) /\
    updateUser mockDateString (VStr "1") {["firstName" := VStr "Johnny"]}
      [john; jane; bob] = (Ok new, us') /\
    us' !! i = Some new /\
    new !! "id" = old !! "id" /\
    get new "id" = VStr "1" /\
    new !! "createdAt" = old !! "createdAt".
Proof.
  apply (@update_keeps_id_and_createdAt sample_formats mockDateString
           (VStr "1") patch_with_id {["firstName" := VStr "Johnny"]}
           [john; jane; bob]).
  - by vm_compute.
  - exists john. split; [in_list | by vm_compute].
Defined.

(** ** C2 *)

Lemma update_merges_in_place_witness :
  exists i old new us',
    list_find (has_id (VStr "1")) [john; jane; bob] = Some (i, old) /\
    updateUser mockDateString (VStr "1") {["lastName" := VStr "X"]}
      [john; jane; bob] = (Ok new, us') /\
    us' !! i = Some new /\
    length us' = 3 /\
    (forall j, j <> i -> us' !! j = [john; jane; bob] !! j) /\
    (forall k v, ({["lastName" := VStr "X"]} : obj) !! k = Some v ->
       new !! k = Some v) /\
    (forall k, ({["lastName" := VStr "X"]} : obj) !! k = None ->
       k <> "updatedAt" -> new !! k = old !! k) /\
    new !! "updatedAt" = Some (VStr mockDateString) /\
    (({["lastName" := VStr "X"]} : obj) = ∅ ->
       new = <["updatedAt" := VStr mockDateString]> old).
Proof.
  apply (update_merges_in_place mockDateString (VStr "1")
           {["lastName" := VStr "X"]} [john; jane; bob]).
  - intros k [v [<- _]%lookup_singleton_Some]. unfold body_fields. in_list.
  - exists john. split; [in_list | by vm_compute].
Defined.

(** ** C5 *)

(** With the generator returning an identifier that a stored record has, as
    in the unit test that mocks [randomUUID], the record created from a valid
    body shares its identifier with that stored record. *)
Lemma create_repeats_stored_id :
  exists r,
    @validateRequest (@userCreateSchema sample_formats) user_two = Next user_two /\
    is_random_uuid mockUUID = true /\
    @post_route sample_formats mockUUID
      "2024-01-15T10:30:00.000Z" "2024-01-15T10:30:00.000Z" user_two [user_one]
      = (Send 201 r, [user_one; r]) /\
    user_one ∈ [user_one] /\
    get user_one "id" = get r "id".
Proof.
  exists (newUser mockUUID "2024-01-15T10:30:00.000Z" "2024-01-15T10:30:00.000Z"
            user_two).
  split_and!; [reflexivity | reflexivity | reflexivity | in_list | reflexivity].
Qed.

(** [createNewUser] evaluates [new Date()] once for [createdAt] and once
    more for [updatedAt]: when the clock advances between the two
    evaluations the two timestamps of the new record differ, whereas the unit
    test "should set createdAt and updatedAt to current timestamp" expects
    one instant for both. *)
Lemma create_reads_clock_twice :
  let r := (createNewUser mockUUID
              "2024-01-15T10:30:00.999Z" "2024-01-15T10:30:01.000Z"
              user_two []).1 in
  get r "createdAt" = VStr "2024-01-15T10:30:00.999Z" /\
  get r "updatedAt" = VStr "2024-01-15T10:30:01.000Z" /\
  get r "createdAt" <> get r "updatedAt".
Proof.
  split_and!; [reflexivity | reflexivity |].
  intros Heq. by apply (f_equal (fun v => strict_eq v (VStr "2024-01-15T10:30:01.000Z"))) in Heq.
Qed.

Lemma create_valid_input_witness :
  exists r,
    @post_route sample_formats mockUUID mockDateString mockDateString
      user_two [john; jane; bob] = (Send 201 r, [john; jane; bob] ++ [r]) /\
    createNewUser mockUUID mockDateString mockDateString user_two
      [john; jane; bob] = (r, [john; jane; bob] ++ [r]) /\
    get r "id" = VStr mockUUID /\ mockUUID <> "" /\
    (fresh mockUUID [john; jane; bob] ->
       forall u, u ∈ [john; jane; bob] -> get u "id" <> get r "id") /\
    (forall k, is_Some (r !! k) -> k ∈ user_fields) /\
    (forall k, k ∉ user_fields -> r !! k = None).
Proof.
  apply (@create_valid_input sample_formats mockUUID mockDateString
           mockDateString user_two user_two [john; jane; bob]);
    reflexivity.
Defined.

(** ** C7 *)

(** Two stored records have the identifier 1: [deleteUser] removes the first,
    and [getUserById] then returns the second. *)
Lemma delete_leaves_second_match :
  deleteUser (VStr "1") [john; jane; johnny] = (Ok john, [jane; johnny]) /\
  getUserById (VStr "1") [jane; johnny] = Ok johnny /\
  getUserById (VStr "1") [jane; johnny] <> Throw NotFound.
Proof. split_and!; by vm_compute. Qed.

Lemma delete_removes_first_witness :
  exists i u,
    list_find (has_id (VStr "2")) [john; jane; bob] = Some (i, u) /\
    deleteUser (VStr "2") [john; jane; bob] = (Ok u, delete i [john; jane; bob]) /\
    get u "id" = VStr "2" /\
    S (length (delete i [john; jane; bob])) = 3 /\
    delete i [john; jane; bob] =
      take i [john; jane; bob] ++ drop (S i) [john; jane; bob] /\
    delete i [john; jane; bob] `sublist_of` [john; jane; bob] /\
    ((forall j v, [john; jane; bob] !! j = Some v -> j <> i ->
        get v "id" <> VStr "2") ->
       getUserById (VStr "2") (delete i [john; jane; bob]) = Throw NotFound) /\
    (NoDup (ids [john; jane; bob]) ->
       getUserById (VStr "2") (delete i [john; jane; bob]) = Throw NotFound).
Proof.
  apply (delete_removes_first (VStr "2") [john; jane; bob]).
  exists jane. split; [in_list | by vm_compute].
Defined.

(** ** C8 *)

(** With the generator returning the identifier of a stored record,
    [getUserById] of the identifier of the created record returns the older
    record. *)
Lemma create_then_read_finds_older_record :
  exists r us',
    @post_route sample_formats mockUUID mockDateString mockDateString
      user_two [user_one] = (Send 201 r, us') /\
    getUserById (get r "id") us' = Ok user_one /\
    user_one <> r.
Proof.
  exists (newUser mockUUID mockDateString mockDateString user_two),
    [user_one; newUser mockUUID mockDateString mockDateString user_two].
  split_and!; by vm_compute.
Qed.

Lemma create_then_read_witness :
  exists r us',
    @post_route sample_formats mockUUID mockDateString mockDateString
      user_two [john; jane; bob] = (Send 201 r, us') /\
    getUserById (get r "id") us' = Ok r.
Proof.
  apply (@create_then_read sample_formats mockUUID mockDateString
           mockDateString user_two user_two [john; jane; bob]).
  - by vm_compute.
  - apply (bool_decide_unpack (fresh mockUUID [john; jane; bob])).
    by vm_compute.
Defined.

(** ** C6 *)

Lemma after_post_reachable : @reachable sample_formats mockDateString after_post.
Proof.
  apply (@reach_post sample_formats seed_time users).
  - apply reach_seed.
  - apply (bool_decide_unpack (is_json user_two)). by vm_compute.
  - by vm_compute.
  - apply (bool_decide_unpack (fresh mockUUID users)). by vm_compute.
  - by vm_compute.
  - by vm_compute.
Qed.

(** The state after that POST is reachable, and its last record has neither
    [email] nor [phone]: not every stored record has the seven properties. *)
Lemma created_record_without_email :
  @reachable sample_formats mockDateString after_post /\
  (exists r, after_post !! 10 = Some r /\
             r !! "email" = None /\ r !! "phone" = None /\
             ~ full_record r) /\
  ~ Forall full_record after_post.
Proof.
  assert (Hr : after_post !! 10 =
               Some (newUser mockUUID mockDateString mockDateString user_two))
    by by vm_compute.
  assert (Hno : ~ full_record
                  (newUser mockUUID mockDateString mockDateString user_two)).
  { intros [Hall _]. destruct (Hall "email") as [s Hs]; [in_list|].
    by vm_compute in Hs. }
  split_and!.
  - apply after_post_reachable.
  - eexists. split_and!; [exact Hr | by vm_compute | by vm_compute | exact Hno].
  - intros Hall. apply Hno. by eapply Forall_lookup_1.
Qed.

Lemma reachable_records_well_formed_witness :
  Forall stored_record after_post /\
  (forall i j u v, after_post !! i = Some u -> after_post !! j = Some v ->
     get u "id" = get v "id" -> i = j) /\
  NoDup (ids after_post).
Proof.
  apply (@reachable_records_well_formed sample_formats mockDateString after_post).
  apply after_post_reachable.
Defined.

(** ** The other variant of the update schema *)

(** With the variant of user.schema.ts whose update schema requires
    firstName, lastName and [id], the empty body is refused, and an [id] in
    the body goes through the validation. *)
Lemma earlier_update_schema :
  @validateRequest (@Earlier.userUpdateSchema sample_formats) ∅ =
    BadRequest [ {| path := "firstName"; message := "firstName is required" |};
                 {| path := "lastName"; message := "lastName is required" |};
                 {| path := "id"; message := "id is required" |} ] /\
  (let body : obj :=
     list_to_map [("firstName", VStr "John"); ("lastName", VStr "Doe");
                  ("id", VStr mockUUID)] in
   @validateRequest (@Earlier.userUpdateSchema sample_formats) body = Next body).
Proof. split; by vm_compute. Qed.

(** ** The unit tests of the repository, on the model *)

(** update-user.spec.ts, "should update an existing user and return the
    updated user". *)
Example test_update_existing :
  updateUser mockDateString (VStr "1")
    (list_to_map [("firstName", VStr "Johnny");
                  ("email", VStr "johnny.doe@example.com")])
    [john; jane; bob]
  = (Ok (mkUser "1" "Johnny" "Doe" "johnny.doe@example.com" "+1-555-123-4567"
           "2024-01-01T00:00:00.000Z" mockDateString),
     [mkUser "1" "Johnny" "Doe" "johnny.doe@example.com" "+1-555-123-4567"
        "2024-01-01T00:00:00.000Z" mockDateString; jane; bob]).
Proof. reflexivity. Qed.

(** The scenario of the specification: [Update("1", {lastName: "X"})]. *)
Example test_update_last_name :
  (updateUser mockDateString (VStr "1") {["lastName" := VStr "X"]} [john]).1
  = Ok (mkUser "1" "John" "X" "john.doe@example.com" "+1-555-123-4567"
          "2024-01-01T00:00:00.000Z" mockDateString).
Proof. reflexivity. Qed.

(** update-user.spec.ts, "should handle empty update data object". *)
Example test_update_empty :
  (updateUser mockDateString (VStr "1") ∅ [john; jane; bob]).1
  = Ok (mkUser "1" "John" "Doe" "john.doe@example.com" "+1-555-123-4567"
          "2024-01-01T00:00:00.000Z" mockDateString).
Proof. reflexivity. Qed.

(** delete-user.spec.ts, "should not affect other users when deleting a
    specific user". *)
Example test_delete_second :
  deleteUser (VStr "2") [john; jane; bob] = (Ok jane, [john; bob]).
Proof. reflexivity. Qed.

(** get-user-by-id.spec.ts, "should handle case-sensitive ID matching",
    "should throw error for empty string ID" and "should throw error for
    null or undefined ID". *)
Example test_get_case_sensitive :
  let alice := mkUser "ABC123" "Alice" "Brown" "alice.brown@example.com"
                 "+1-555-333-4444" "2024-01-04T00:00:00.000Z"
                 "2024-01-04T00:00:00.000Z" in
  getUserById (VStr "ABC123") [john; jane; bob; alice] = Ok alice /\
  getUserById (VStr "abc123") [john; jane; bob; alice] = Throw NotFound /\
  getUserById (VStr "") [john; jane; bob; alice] = Throw NotFound /\
  getUserById VNull [john; jane; bob; alice] = Throw NotFound /\
  getUserById VUndefined [john; jane; bob; alice] = Throw NotFound.
Proof. split_and!; reflexivity. Qed.

(** create-new-user.spec.ts, "should handle multiple user creations
    correctly": both records get the mocked identifier. *)
Example test_create_twice :
  let t := "2024-01-15T10:30:00.000Z" in
  let user1 : obj := list_to_map
    [("firstName", VStr "User"); ("lastName", VStr "One");
     ("email", VStr "user1@example.com"); ("phone", VStr "+1-555-111-1111")] in
  let user2 : obj := list_to_map
    [("firstName", VStr "User"); ("lastName", VStr "Two");
     ("email", VStr "user2@example.com"); ("phone", VStr "+1-555-222-2222")] in
  let '(result1, users1) := createNewUser mockUUID t t user1 [] in
  let '(result2, users2) := createNewUser mockUUID t t user2 users1 in
  users2 = [result1; result2] /\
  get result1 "id" = VStr mockUUID /\ get result2 "id" = VStr mockUUID /\
  result1 = user_one.
Proof. split_and!; reflexivity. Qed.

(** The phone numbers of the seed and of the tests match the pattern;
    "invalid-phone" and "bad" do not. *)
Example test_phone_pattern :
  phone_pattern "+1-555-555-0123" = true /\
  phone_pattern "+1-555-123-4567" = true /\
  phone_pattern "5551234" = true /\
  phone_pattern "invalid-phone" = false /\
  phone_pattern "bad" = false /\
  phone_pattern "" = false.
Proof. split_and!; reflexivity. Qed.

(** * Further properties of the controllers *)

(** ** Searching after a change of the collection *)

Lemma getUserById_find id us : 
  getUserById id us =
    match find id us with Some u => Ok u | None => Throw NotFound end.
Proof. done. Qed.

(** Replacing a record by one with the same identifier: [find] locates the
    new record at the same index. *)
Lemma list_find_replaced id (us : list obj) i old new :
  list_find (has_id id) us = Some (i, old) -> get new "id" = id ->
  list_find (has_id id) (<[i := new]> us) = Some (i, new).
Proof.
  intros (Hi & Hid & Hleast)%found_first Hnew. apply found_first. split_and!.
  - apply list_lookup_insert_eq. by eapply lookup_lt_Some.
  - done.
  - intros j v Hj Hlt. rewrite list_lookup_insert_ne in Hj by lia. eauto.
Qed.

(** Replacing a record leaves the search for another identifier as it was,
    when neither the old nor the new record has that identifier. *)
Lemma list_find_insert_other id' (us : list obj) i old new :
  us !! i = Some old -> get old "id" <> id' -> get new "id" <> id' ->
  list_find (has_id id') (<[i := new]> us) = list_find (has_id id') us.
Proof.
  intros Hi Hold Hnew.
  destruct (list_find (has_id id') us) as [[j v]|] eqn:Hf.
  - apply found_first in Hf as (Hj & Hv & Hleast). apply found_first.
    assert (j <> i) by (intros ->; congruence).
    split_and!; [by rewrite list_lookup_insert_ne | done |].
    intros k w Hk Hlt. destruct (decide (k = i)) as [->|Hne].
    + rewrite list_lookup_insert_eq in Hk by (by eapply lookup_lt_Some).
      by simplify_eq.
    + rewrite list_lookup_insert_ne in Hk by done. eauto.
  - apply found_none. intros w (k & Hk)%list_elem_of_lookup.
    destruct (decide (k = i)) as [->|Hne].
    + rewrite list_lookup_insert_eq in Hk by (by eapply lookup_lt_Some).
      by simplify_eq.
    + rewrite list_lookup_insert_ne in Hk by done.
      eapply found_none; [exact Hf|]. by eapply list_elem_of_lookup_2.
Qed.

(** Removing a record that has not the identifier searched for does not
    change the record that [find] returns. *)
Lemma find_delete_other id' (us : list obj) : forall i old,
  us !! i = Some old -> get old "id" <> id' ->
  find id' (delete i us) = find id' us.
Proof.
  unfold find. induction us as [|x us IH]; intros [|i] old Hi Hold; try done.
  - simpl in Hi. simplify_eq. simpl. rewrite decide_False.
    + by rewrite <- option_fmap_compose.
    + by rewrite has_id_eq.
  - simpl in Hi. simpl. case_decide; [done|].
    rewrite <- !option_fmap_compose. apply (IH i old Hi Hold).
Qed.

(** A record pushed at the end, with another identifier than the one searched
    for, does not change the record that [find] returns. *)
Lemma find_push_other id' (us : list obj) new :
  get new "id" <> id' -> find id' (us ++ [new]) = find id' us.
Proof.
  intros Hnew. unfold find. induction us as [|x us IH]; simpl.
  - rewrite decide_False; [done|]. by rewrite has_id_eq.
  - case_decide; [done|]. rewrite <- !option_fmap_compose. apply IH.
Qed.

Lemma list_find_pushed uuid (us : list obj) new :
  fresh uuid us -> get new "id" = VStr uuid ->
  list_find (has_id (VStr uuid)) (us ++ [new]) = Some (length us, new).
Proof.
  intros Hfresh Hnew. rewrite list_find_app_r.
  - simpl. rewrite decide_True by (by apply has_id_eq). done.
  - apply found_none. intros u Hu Heq. apply Hfresh.
    unfold ids. apply list_elem_of_fmap. eauto.
Qed.

(** ** updateUser followed by another call *)

(** X1. After [updateUser] replaced a record, with a partial that has no
    [id], [getUserById] of the identifier returns the record that
    [updateUser] returned. *)
Theorem update_then_read now (id : value) (partial : obj) (us us' : list obj) r :
  partial !! "id" = None ->
  updateUser now id partial us = (Ok r, us') ->
  getUserById id us' = Ok r.
Proof.
  intros Hp Hu.
  destruct (list_find (has_id id) us) as [[i old]|] eqn:Hf.
  - rewrite (updateUser_found _ _ _ _ _ _ Hf) in Hu. simplify_eq.
    eapply getUserById_found, list_find_replaced; [done|].
    apply found_first in Hf as (_ & Hid & _).
    unfold get in *. by rewrite lookup_updatedUser, Hp.
  - by destruct (controllers_not_found now id partial us Hf) as (_ & Hu' & _);
      rewrite Hu' in Hu.
Qed.

(** X2. [updateUser] with a partial that has no [id] does not change what
    [getUserById] returns for any other identifier. *)
Theorem update_frame now (id id' : value) (partial : obj) (us : list obj) :
  partial !! "id" = None -> id' <> id ->
  getUserById id' (updateUser now id partial us).2 = getUserById id' us.
Proof.
  intros Hp Hne.
  destruct (list_find (has_id id) us) as [[i old]|] eqn:Hf.
  - rewrite (updateUser_found _ _ _ _ _ _ Hf). simpl.
    apply found_first in Hf as (Hi & Hid & _).
    unfold getUserById, find.
    rewrite (list_find_insert_other id' us i old); [done..| |]; [congruence|].
    unfold get in *. rewrite lookup_updatedUser, Hp. simpl. congruence.
  - by destruct (controllers_not_found now id partial us Hf) as (_ & -> & _).
Qed.

(** X3. Two calls of [updateUser] on one identifier amount to one call with
    the second partial laid over the first and the later reading of the
    clock, when the first partial has no [id]; in particular a call repeated
    with the same partial and reading changes nothing more. *)
Theorem update_twice t1 t2 (id : value) (p1 p2 : obj) (us : list obj) :
  p1 !! "id" = None ->
  updateUser t2 id p2 (updateUser t1 id p1 us).2 = updateUser t2 id (p2 ∪ p1) us /\
  (updateUser t1 id p1 (updateUser t1 id p1 us).2 = updateUser t1 id p1 us).
Proof.
  intros Hp.
  assert (Hgen : forall t p,
    updateUser t id p (updateUser t1 id p1 us).2 = updateUser t id (p ∪ p1) us).
  { intros t p.
    destruct (list_find (has_id id) us) as [[i old]|] eqn:Hf.
    - rewrite (updateUser_found _ _ _ _ _ _ Hf). simpl.
      assert (Hid : get (updatedUser t1 old p1) "id" = id).
      { apply found_first in Hf as (_ & Hid & _).
        unfold get in *. by rewrite lookup_updatedUser, Hp. }
      rewrite (updateUser_found _ _ _ _ _ _ (list_find_replaced _ _ _ _ _ Hf Hid)).
      rewrite (updateUser_found _ _ _ _ _ _ Hf), list_insert_insert_eq.
      assert (updatedUser t (updatedUser t1 old p1) p = updatedUser t old (p ∪ p1))
        as ->; [|done].
      apply map_eq. intros k. rewrite !lookup_updatedUser, lookup_union.
      case_decide; [done|]. destruct (p !! k), (p1 !! k); done.
    - destruct (controllers_not_found t1 id p1 us Hf) as (_ & -> & _). simpl.
      destruct (controllers_not_found t id p us Hf) as (_ & -> & _).
      by destruct (controllers_not_found t id (p ∪ p1) us Hf) as (_ & -> & _). }
  split; [apply Hgen|].
  rewrite Hgen.
  assert (p1 ∪ p1 = p1) as ->; [|done].
  apply map_eq. intros k. rewrite lookup_union. by destruct (p1 !! k).
Qed.

(** ** createNewUser and deleteUser followed by another call *)

(** X4. [createNewUser] does not change what [getUserById] returns for any
    identifier other than the generated one. *)
Theorem create_frame uuid created updated (user : obj) (us : list obj)
    (id' : value) :
  id' <> VStr uuid ->
  getUserById id' (createNewUser uuid created updated user us).2
    = getUserById id' us.
Proof.
  intros Hne. unfold createNewUser. simpl. rewrite !getUserById_find.
  rewrite find_push_other; [done|].
  unfold get. rewrite lookup_newUser. simpl. congruence.
Qed.

(** X5. [deleteUser] does not change what [getUserById] returns for any
    other identifier. *)
Theorem delete_frame (id id' : value) (us : list obj) :
  id' <> id ->
  getUserById id' (deleteUser id us).2 = getUserById id' us.
Proof.
  intros Hne.
  destruct (list_find (has_id id) us) as [[i old]|] eqn:Hf.
  - rewrite (deleteUser_found _ _ _ _ Hf). simpl.
    apply found_first in Hf as (Hi & Hid & _).
    rewrite !getUserById_find, (find_delete_other id' us i old); [done..|].
    congruence.
  - by destruct (controllers_not_found "" id ∅ us Hf) as (_ & _ & ->).
Qed.

(** X6. Deleting the identifier of a record that [createNewUser] has just
    pushed, the generated identifier being fresh, returns that record and
    restores the collection as it was before the creation. *)
Theorem create_then_delete uuid created updated (user : obj) (us : list obj) :
  fresh uuid us ->
  let '(r, us') := createNewUser uuid created updated user us in
  deleteUser (get r "id") us' = (Ok r, us).
Proof.
  intros Hfresh. unfold createNewUser.
  assert (Hid : get (newUser uuid created updated user) "id" = VStr uuid).
  { apply get_lookup. by rewrite lookup_newUser. }
  rewrite Hid.
  rewrite (deleteUser_found _ _ _ _ (list_find_pushed uuid us _ Hfresh Hid)).
  by rewrite delete_middle, app_nil_r.
Qed.

(** * Further properties of the validation *)

Section MoreValidation.
Context `{Formats}.

Lemma object_errors_ext (o : object_schema) (raw1 raw2 : obj) :
  (forall k, k ∈ o.*1 -> raw1 !! k = raw2 !! k) ->
  object_errors o raw1 = object_errors o raw2.
Proof.
  unfold object_errors. induction o as [|[k s] o IH]; intros Hsame; [done|].
  simpl. f_equal.
  - unfold get. rewrite (Hsame k); [done|]. simpl. apply list_elem_of_here.
  - apply IH. intros k' Hk'. apply Hsame. simpl. by apply list_elem_of_further.
Qed.

Lemma strip_unknown_ext (o : object_schema) (raw1 raw2 : obj) :
  (forall k, k ∈ o.*1 -> raw1 !! k = raw2 !! k) ->
  strip_unknown o raw1 = strip_unknown o raw2.
Proof.
  intros Hsame. apply map_eq. intros k. rewrite !lookup_strip_unknown.
  case_decide; [by apply Hsame | done].
Qed.

(** X7. The outcome of [validateRequest], sanitized value or details, depends
    on the declared properties of the raw value only: two raw values that
    agree on the keys of the schema get the same outcome, whatever other
    properties they have. *)
Theorem validation_ignores_unknown (o : object_schema) (raw1 raw2 : obj) :
  (forall k, k ∈ o.*1 -> raw1 !! k = raw2 !! k) ->
  validateRequest o raw1 = validateRequest o raw2.
Proof.
  intros Hsame. unfold validateRequest, validate.
  by rewrite (object_errors_ext o raw1 raw2 Hsame),
    (strip_unknown_ext o raw1 raw2 Hsame).
Qed.

(** X8. A sanitized value has the declared properties of the raw value,
    unchanged, and no other property; validated again it is accepted and
    comes back as it is. *)
Theorem validation_idempotent (o : object_schema) (raw body : obj) :
  validateRequest o raw = Next body ->
  (forall k, k ∈ o.*1 -> body !! k = raw !! k) /\
  (forall k, k ∉ o.*1 -> body !! k = None) /\
  validateRequest o body = Next body.
Proof.
  intros Hv. pose proof Hv as (_ & ->)%validateRequest_Next.
  assert (Hsame : forall k, k ∈ o.*1 -> strip_unknown o raw !! k = raw !! k).
  { intros k Hk. rewrite lookup_strip_unknown. by rewrite decide_True. }
  split_and!.
  - done.
  - intros k Hk. rewrite lookup_strip_unknown. by rewrite decide_False.
  - rewrite (validation_ignores_unknown o _ raw Hsame). done.
Qed.

Lemma userCreateSchema_keys :
  userCreateSchema =
    [("firstName", required Joi_string); ("lastName", required Joi_string);
     ("email", emailSchema); ("phone", phoneSchema)].
Proof. reflexivity. Qed.

Lemma accepts_required_string v :
  accepts (required Joi_string) v <-> exists x, v = VStr x /\ x <> "".
Proof.
  destruct v as [| | | |x]; simpl; try (split; [done | by intros (? & ? & ?)]).
  split.
  - intros [Hx _]. eauto.
  - intros (y & [= <-] & Hy). split; [done | constructor].
Qed.

Lemma accepts_one_rule (s : schema) (test : string -> bool) c m v :
  flag_presence s = Optional ->
  rules s = [{| rule_code := c; rule_test := test; rule_message := m |}] ->
  accepts s v <->
  v = VUndefined \/ exists x, v = VStr x /\ x <> "" /\ test x = true.
Proof.
  intros Hp Hr. destruct v as [| | | |x]; simpl; rewrite ?Hr.
  - split; [by left | done].
  - split; [done | by intros [?|(? & ? & _)]].
  - split; [done | by intros [?|(? & ? & _)]].
  - split; [done | by intros [?|(? & ? & _)]].
  - split.
    + intros [Hx Hall]. right. exists x. split_and!; [done..|].
      by inversion Hall.
    + intros [?|(y & [= <-] & Hy & Ht)]; [done|].
      split; [done|]. by repeat constructor.
Qed.

(** X9. The user-create schema accepts a body exactly when [firstName] and
    [lastName] are non-empty strings, [email] is absent or a non-empty string
    with the format of an address, and [phone] is absent or a non-empty
    string that matches the phone pattern. *)
Theorem create_schema_accepts (raw : obj) :
  (exists body, validateRequest userCreateSchema raw = Next body) <->
  (exists f, get raw "firstName" = VStr f /\ f <> "") /\
  (exists l, get raw "lastName" = VStr l /\ l <> "") /\
  (get raw "email" = VUndefined \/
   exists e, get raw "email" = VStr e /\ e <> "" /\ isEmail e = true) /\
  (get raw "phone" = VUndefined \/
   exists p, get raw "phone" = VStr p /\ p <> "" /\ phone_pattern p = true).
Proof.
  rewrite <- (accepts_required_string (get raw "firstName")).
  rewrite <- (accepts_required_string (get raw "lastName")).
  rewrite <- (accepts_one_rule emailSchema isEmail _ _ (get raw "email")
                eq_refl eq_refl).
  rewrite <- (accepts_one_rule phoneSchema phone_pattern _ _ (get raw "phone")
                eq_refl eq_refl).
  split.
  - intros (body & (Herr & _)%validateRequest_Next).
    pose proof (proj1 (object_errors_nil _ raw) Herr) as Hacc.
    rewrite userCreateSchema_keys in Hacc.
    split_and!; apply Hacc; in_list.
  - intros (Hf & Hl & He & Hp). eexists. apply validateRequest_Next.
    split; [|done]. apply object_errors_nil. intros k s Hin.
    rewrite userCreateSchema_keys in Hin.
    repeat (apply elem_of_cons in Hin as [Hin|Hin]; [by simplify_eq|]).
    by apply elem_of_nil in Hin.
Qed.

(** X10. The id-param schema accepts the parameters exactly when [id] is a
    non-empty string with the format of a GUID, and the sanitized parameters
    then carry that string: the handlers call the controllers with such an
    identifier only. A refusal has one detail, for the path [id]. *)
Theorem id_schema_accepts (params : obj) :
  ((exists ps, validateRequest userIdSchema params = Next ps) <->
   (exists s, get params "id" = VStr s /\ s <> "" /\ isGuid s = true)) /\
  (forall ps, validateRequest userIdSchema params = Next ps ->
     exists s, get ps "id" = VStr s /\ s <> "" /\ isGuid s = true) /\
  (forall details, validateRequest userIdSchema params = BadRequest details ->
     exists m, details = [ {| path := "id"; message := m |} ]).
Proof.
  assert (Hiff : forall ps, validateRequest userIdSchema params = Next ps ->
             exists s, get params "id" = VStr s /\ s <> "" /\ isGuid s = true).
  { intros ps (Herr & _)%validateRequest_Next.
    pose proof (proj1 (object_errors_nil _ params) Herr "id" idSchema) as Hacc.
    destruct (get params "id") as [| | | |s]; simpl in Hacc;
      try (by destruct Hacc; [in_list|..]); try (by exfalso; apply Hacc; in_list).
    - by specialize (Hacc ltac:(in_list)).
    - destruct Hacc as [Hs Hall]; [in_list|]. exists s. split_and!; [done..|].
      by inversion Hall. }
  split_and!.
  - split; [intros [ps Hps]; eauto|].
    intros (s & Hs & Hne & Hg). eexists. apply validateRequest_Next.
    split; [|done]. apply object_errors_nil. intros k sch Hin.
    apply list_elem_of_singleton in Hin. simplify_eq. rewrite Hs. simpl.
    split; [done|]. by repeat constructor.
  - intros ps Hps. destruct (Hiff ps Hps) as (s & Hs & Hne & Hg).
    exists s. split_and!; [|done..].
    destruct (validation_idempotent _ _ _ Hps) as (Hkeep & _).
    unfold get in *. rewrite Hkeep; [done|]. in_list.
  - intros details (Hne & ->)%validateRequest_BadRequest. revert Hne.
    unfold object_errors, userIdSchema, Joi_object. cbn [flat_map].
    rewrite app_nil_r.
    destruct (get params "id") as [| | | |s]; try (by eexists).
    destruct s as [|c s]; [by eexists|].
    unfold validate_string, rule_errors. cbn.
    destruct (isGuid (String c s)); [done | by eexists].
Qed.

End MoreValidation.

(** * Further properties of the handlers *)

Section MoreHandlers.
Context `{Formats}.

Lemma respond_inv status (r : result obj * list obj) resp us' :
  respond status r = (resp, us') ->
  (exists u, r = (Ok u, us') /\ resp = Send status u) \/
  (exists e, r = (Throw e, us') /\ resp = Failed e).
Proof. destruct r as [[u|e] us0]; intros [= <- <-]; eauto. Qed.

(** What each controller returns, applied to any identifier. *)
Lemma deleteUser_cases id (us : list obj) :
  (exists i u, list_find (has_id id) us = Some (i, u) /\
               deleteUser id us = (Ok u, delete i us)) \/
  (list_find (has_id id) us = None /\ deleteUser id us = (Throw NotFound, us)).
Proof.
  destruct (list_find (has_id id) us) as [[i u]|] eqn:Hf.
  - left. exists i, u. split; [done|]. by apply deleteUser_found.
  - right. split; [done|]. by apply (controllers_not_found "" id ∅).
Qed.

Lemma updateUser_cases now id partial (us : list obj) :
  (exists i u, list_find (has_id id) us = Some (i, u) /\
               updateUser now id partial us =
                 (Ok (updatedUser now u partial),
                  <[i := updatedUser now u partial]> us)) \/
  (list_find (has_id id) us = None /\
   updateUser now id partial us = (Throw NotFound, us)).
Proof.
  destruct (list_find (has_id id) us) as [[i u]|] eqn:Hf.
  - left. exists i, u. split; [done|]. by apply updateUser_found.
  - right. split; [done|]. by apply (controllers_not_found now id partial).
Qed.

(** X11. Parameters that the id-param schema refuses get the same 400, with
    its one detail for [id], from the GET, the PATCH and the DELETE handler;
    the PATCH handler does not look at the body then, and the collection is
    as before. *)
Theorem invalid_id_refused now (params body : obj) (us : list obj) details :
  validateRequest userIdSchema params = BadRequest details ->
  get_route params us = (Invalid details, us) /\
  patch_route now params body us = (Invalid details, us) /\
  delete_route params us = (Invalid details, us) /\
  exists m, details = [ {| path := "id"; message := m |} ].
Proof.
  intros Hv. unfold get_route, patch_route, delete_route. rewrite Hv.
  split_and!; [done..|].
  by destruct (id_schema_accepts params) as (_ & _ & Hd); apply Hd.
Qed.

(** X12. A request that is not answered with a record, because the
    validation refused it or because the controller threw, leaves the
    collection as it was. *)
Theorem refused_request_keeps_collection (us : list obj) :
  (forall uuid created updated body resp us',
     post_route uuid created updated body us = (resp, us') ->
     (forall status r, resp <> Send status r) -> us' = us) /\
  (forall now params body resp us',
     patch_route now params body us = (resp, us') ->
     (forall status r, resp <> Send status r) -> us' = us) /\
  (forall params resp us',
     delete_route params us = (resp, us') ->
     (forall status r, resp <> Send status r) -> us' = us).
Proof.
  split_and!.
  - intros uuid created updated body resp us'. unfold post_route.
    destruct (validateRequest userCreateSchema body) as [b|]; simpl.
    + intros [= <- <-] Hno. by destruct (Hno 201 (newUser uuid created updated b)).
    + by intros [= <- <-].
  - intros now params body resp us'. unfold patch_route.
    destruct (validateRequest userIdSchema params) as [ps|]; [|by intros [= <- <-]].
    destruct (validateRequest userUpdateSchema body) as [b|]; [|by intros [= <- <-]].
    intros [(u & _ & ->)|(e & Hu & ->)]%respond_inv Hno; [by destruct (Hno 200 u)|].
    destruct (updateUser_cases now (get ps "id") b us)
      as [(i & u & _ & Hu')|(_ & Hu')]; rewrite Hu' in Hu; by simplify_eq.
  - intros params resp us'. unfold delete_route.
    destruct (validateRequest userIdSchema params) as [ps|]; [|by intros [= <- <-]].
    intros [(u & _ & ->)|(e & Hu & ->)]%respond_inv Hno; [by destruct (Hno 200 u)|].
    destruct (deleteUser_cases (get ps "id") us)
      as [(i & u & _ & Hu')|(_ & Hu')]; rewrite Hu' in Hu; by simplify_eq.
Qed.

(** X13. What the handlers answer with a record. POST answers 201 with the
    record it pushed at the end; PATCH answers 200 with the record it stored
    in place of the first one with the identifier of the parameters, the
    collection keeping its length; DELETE answers 200 with the record it
    removed, the collection being one shorter; GET answers 200 with a stored
    record and changes nothing. PATCH, DELETE and GET answer with a record
    that has the identifier of the parameters. *)
Theorem answered_requests (us : list obj) :
  (forall uuid created updated body status r us',
     post_route uuid created updated body us = (Send status r, us') ->
     status = 201 /\ us' = us ++ [r] /\ get r "id" = VStr uuid) /\
  (forall now params body status r us',
     patch_route now params body us = (Send status r, us') ->
     status = 200 /\ length us' = length us /\ r ∈ us' /\
     get r "id" = get params "id" /\ get r "updatedAt" = VStr now) /\
  (forall params status r us',
     delete_route params us = (Send status r, us') ->
     status = 200 /\ S (length us') = length us /\ r ∈ us /\
     us' `sublist_of` us /\ get r "id" = get params "id") /\
  (forall params status r us',
     get_route params us = (Send status r, us') ->
     status = 200 /\ us' = us /\ r ∈ us /\ get r "id" = get params "id").
Proof.
  assert (Hparams : forall params ps,
            validateRequest userIdSchema params = Next ps ->
            get ps "id" = get params "id").
  { intros params ps Hps.
    destruct (validation_idempotent _ _ _ Hps) as (Hkeep & _).
    unfold get. rewrite Hkeep; [done|]. in_list. }
  split_and!.
  - intros uuid created updated body status r us'. unfold post_route.
    destruct (validateRequest userCreateSchema body); [|done]. simpl.
    intros [= <- <- <-]. split_and!; [done..|].
    apply get_lookup. by rewrite lookup_newUser.
  - intros now params body status r us'. unfold patch_route.
    destruct (validateRequest userIdSchema params) as [ps|] eqn:Hps; [|done].
    destruct (validateRequest userUpdateSchema body) as [b|] eqn:Hb; [|done].
    intros [(u & Hu & [= <- <-])|(e & _ & [=])]%respond_inv.
    destruct (updateUser_cases now (get ps "id") b us)
      as [(i & old & Hf & Hu')|(_ & Hu')]; rewrite Hu' in Hu; [|done].
    simplify_eq. apply found_first in Hf as (Hi & Hid & _).
    assert (Hlt : i < length us) by by eapply lookup_lt_Some.
    split_and!.
    + done.
    + apply length_insert.
    + eapply list_elem_of_lookup_2. by apply list_lookup_insert_eq.
    + rewrite <- (Hparams params ps Hps).
      unfold get in *. rewrite lookup_updatedUser. simpl.
      destruct (b !! "id") eqn:Hbid; [|done].
      assert (Hin : "id" ∈ body_fields).
      { apply (sanitized_update body b Hb). by rewrite Hbid. }
      unfold body_fields in Hin. absurd_elem Hin.
    + apply get_lookup. by rewrite lookup_updatedUser.
  - intros params status r us'. unfold delete_route.
    destruct (validateRequest userIdSchema params) as [ps|] eqn:Hps; [|done].
    intros [(u & Hu & [= <- <-])|(e & _ & [=])]%respond_inv.
    destruct (deleteUser_cases (get ps "id") us)
      as [(i & old & Hf & Hu')|(_ & Hu')]; rewrite Hu' in Hu; [|done].
    simplify_eq. apply found_first in Hf as (Hi & Hid & _).
    split_and!.
    + done.
    + rewrite length_delete by eauto. apply lookup_lt_Some in Hi. lia.
    + by eapply list_elem_of_lookup_2.
    + apply sublist_delete.
    + by rewrite <- (Hparams params ps Hps).
  - intros params status r us'. unfold get_route.
    destruct (validateRequest userIdSchema params) as [ps|] eqn:Hps; [|done].
    intros [(u & Hu & [= <- <-])|(e & _ & [=])]%respond_inv.
    injection Hu as Hg <-. unfold getUserById, find in Hg.
    destruct (list_find (has_id (get ps "id")) us) as [[i old]|] eqn:Hf; [|done].
    simpl in Hg. simplify_eq. apply found_first in Hf as (Hi & Hid & _).
    split_and!; [done..| |].
    + by eapply list_elem_of_lookup_2.
    + by rewrite <- (Hparams params ps Hps).
Qed.

End MoreHandlers.

(** * Further properties of the states of a run *)

(** In a collection without repeated identifiers, [find] locates every
    record under its own identifier. *)
Lemma list_find_unique (us : list obj) j u :
  NoDup (ids us) -> us !! j = Some u ->
  list_find (has_id (get u "id")) us = Some (j, u).
Proof.
  intros Hnd Hj. apply found_first. split_and!; [done..|].
  intros k v Hk Hlt Heq.
  assert (k = j); [|lia].
  eapply (NoDup_lookup (ids us) k j (get v "id")); [done| |].
  - unfold ids. by rewrite list_lookup_fmap, Hk.
  - unfold ids. by rewrite list_lookup_fmap, Hj; simpl; rewrite Heq.
Qed.

(** In a collection without repeated identifiers, nothing is found under the
    identifier of a record once that record is removed. *)
Lemma list_find_deleted (us : list obj) i u :
  NoDup (ids us) -> us !! i = Some u ->
  list_find (has_id (get u "id")) (delete i us) = None.
Proof.
  intros Hnd Hi. apply found_none. intros v (k & Hk)%list_elem_of_lookup Heq.
  assert (Hidx : exists k', k' <> i /\ us !! k' = Some v).
  { destruct (decide (k < i)).
    - exists k. rewrite list_lookup_delete_lt in Hk by done. split; [lia|done].
    - exists (S k). rewrite list_lookup_delete_ge in Hk by lia. split; [lia|done]. }
  destruct Hidx as (k' & Hne & Hk'). apply Hne.
  eapply (NoDup_lookup (ids us) k' i (get v "id")); [done| |].
  - unfold ids. by rewrite list_lookup_fmap, Hk'.
  - unfold ids. by rewrite list_lookup_fmap, Hi; simpl; rewrite Heq.
Qed.

Section MoreRun.
Context `{Formats}.

(** X14. In every state of a run, each stored record is the one that
    [getUserById] returns for its identifier. *)
Theorem stored_record_retrievable clock (us : list obj) u :
  reachable clock us -> u ∈ us ->
  getUserById (get u "id") us = Ok u.
Proof.
  intros (_ & Hnd & _)%reachable_invariant (j & Hj)%list_elem_of_lookup.
  eapply getUserById_found. by apply list_find_unique.
Qed.

(** X15. In every state of a run, once the DELETE handler has answered with
    a record, the state it leaves is a state of the run in which the GET and
    the DELETE handler fail with NotFound for the same parameters. *)
Theorem delete_then_not_found clock (us us' : list obj) params status r :
  reachable clock us ->
  delete_route params us = (Send status r, us') ->
  reachable clock us' /\
  get_route params us' = (Failed NotFound, us') /\
  delete_route params us' = (Failed NotFound, us').
Proof.
  intros Hreach Hdel. pose proof Hreach as (_ & Hnd & _)%reachable_invariant.
  split.
  - replace us' with (delete_route params us).2 by by rewrite Hdel.
    by apply reach_delete.
  - unfold delete_route, get_route in *.
    destruct (validateRequest userIdSchema params) as [ps|]; [|done].
    apply respond_inv in Hdel as [(u & Hu & _)|(e & _ & [=])].
    destruct (deleteUser_cases (get ps "id") us)
      as [(i & old & Hf & Hu')|(_ & Hu')]; rewrite Hu' in Hu; [|done].
    injection Hu as <- <-. apply found_first in Hf as (Hi & Hid & _).
    pose proof (list_find_deleted us i old Hnd Hi) as Hnone.
    rewrite Hid in Hnone.
    destruct (controllers_not_found "" (get ps "id") ∅ _ Hnone) as (-> & _ & ->).
    done.
Qed.

(** X16. The PATCH handler, whatever the parameters and the body, leaves the
    [id] and the [createdAt] of the record at every position of the
    collection as they were. *)
Theorem patch_keeps_ids_and_createdAt now (params body : obj) (us : list obj) :
  ids (patch_route now params body us).2 = ids us /\
  (fun u => get u "createdAt") <$> (patch_route now params body us).2
    = (fun u => get u "createdAt") <$> us.
Proof.
  unfold patch_route.
  destruct (validateRequest userIdSchema params) as [ps|]; [|done].
  destruct (validateRequest userUpdateSchema body) as [b|] eqn:Hb; [|done].
  destruct (updateUser_cases now (get ps "id") b us)
    as [(i & old & Hf & ->)|(_ & ->)]; [|done].
  simpl. apply found_first in Hf as (Hi & _ & _).
  assert (Hnone : forall k, k ∉ body_fields -> b !! k = None).
  { intros k Hk. destruct (b !! k) eqn:Hbk; [|done].
    destruct Hk. apply (sanitized_update body b Hb). by rewrite Hbk. }
  assert (Hkeep : forall k, k ∉ body_fields -> k <> "updatedAt" ->
            get (updatedUser now old b) k = get old k).
  { intros k Hk Hne. unfold get. rewrite lookup_updatedUser, (Hnone k Hk).
    by rewrite decide_False. }
  split; unfold ids; rewrite list_fmap_insert, Hkeep, list_insert_id;
    try done; try (by rewrite list_lookup_fmap, Hi);
    intros Hin; unfold body_fields in Hin; absurd_elem Hin.
Qed.

End MoreRun.

(** * Further properties of the phone pattern *)

Lemma phone_body_spec l :
  phone_body l = true <->
  7 <= length l <= 15 /\ Forall (fun c => is_phone_char c = true) l.
Proof.
  unfold phone_body. rewrite !andb_true_iff, !Nat.leb_le, forallb_forall.
  rewrite Forall_forall. setoid_rewrite list_elem_of_In. tauto.
Qed.

Lemma code_plus c : Nat.eqb (code c) 43 = true -> c = "+"%char.
Proof.
  intros Hc%Nat.eqb_eq. unfold code in Hc.
  rewrite <- (ascii_nat_embedding c), Hc. done.
Qed.

Lemma phone_after_prefix_spec k rest :
  phone_after_prefix k rest = true <->
  exists ds sep body,
    rest = ds ++ sep ++ body /\ length ds = k /\ forallb is_digit ds = true /\
    (sep = [] \/ exists c, sep = [c] /\ is_sep c = true) /\
    phone_body body = true.
Proof.
  unfold phone_after_prefix. split.
  - rewrite !andb_true_iff, orb_true_iff, Nat.leb_le.
    intros [[Hk Hds] Hrest].
    exists (take k rest). destruct Hrest as [Hb|Hb].
    + exists [], (drop k rest). split_and!; [|by apply length_take_le|done|by left|done].
      simpl. by rewrite take_drop.
    + destruct (drop k rest) as [|c rest'] eqn:Hd; [done|].
      apply andb_true_iff in Hb as [Hc Hb].
      exists [c], rest'. split_and!; [|by apply length_take_le|done| |done].
      * simpl. by rewrite <- Hd, take_drop.
      * right. eauto.
  - intros (ds & sep & body & -> & <- & Hds & Hsep & Hb).
    rewrite length_app, take_app_length, drop_app_length, Hds.
    rewrite (proj2 (Nat.leb_le _ _)) by lia. simpl.
    destruct Hsep as [->|(c & -> & Hc)]; simpl.
    + by rewrite Hb.
    + rewrite Hc, Hb. simpl. apply orb_true_r.
Qed.

(** The test of the pattern accepts the strings of the grammar, and only
    them. *)
Lemma phone_pattern_iff s : phone_pattern s = true <-> phone_shape s.
Proof.
  unfold phone_pattern, phone_shape. split.
  - intros [Hb|Hp]%orb_true_iff.
    + exists [], (String.list_ascii_of_string s).
      apply phone_body_spec in Hb. split_and!; [done|by left|apply Hb..].
    + destruct (String.list_ascii_of_string s) as [|plus [|d rest]]; [done..|].
      apply andb_true_iff in Hp as [[Hplus Hd]%andb_true_iff Hk].
      apply code_plus in Hplus as ->.
      apply existsb_exists in Hk as (k & Hk & Hafter).
      apply phone_after_prefix_spec in Hafter
        as (ds & sep & body & -> & Hlen & Hds & Hsep & Hb).
      apply phone_body_spec in Hb.
      exists ("+"%char :: d :: ds ++ sep), body. split_and!; [|right|apply Hb..].
      * simpl. by rewrite <- app_assoc.
      * exists d, ds, sep. split_and!; [done..| |done|done].
        rewrite Hlen. simpl in Hk. destruct Hk as [<-|[<-|[<-|[<-|[]]]]]; lia.
  - intros (prefix & body & -> & Hpre & Hlen & Hall).
    assert (Hb : phone_body body = true) by by apply phone_body_spec.
    destruct Hpre as [->|(d & ds & sep & -> & Hd & Hlds & Hds & Hsep)].
    + simpl. by rewrite Hb.
    + apply orb_true_iff. right. cbn -[existsb]. rewrite Hd. cbn -[existsb].
      apply existsb_exists. exists (length ds). split.
      * simpl. lia.
      * apply phone_after_prefix_spec. exists ds, sep, body.
        split_and!; [|done..]. by rewrite <- app_assoc.
Qed.

Lemma length_list_ascii s :
  length (String.list_ascii_of_string s) = String.length s.
Proof. induction s as [|c s IH]; simpl; [done | by rewrite IH]. Qed.

(** X17. The test of the phone pattern accepts a string exactly when it is,
    from its first to its last character, an optional international prefix
    (a plus sign, a digit from 1 to 9, up to three more digits, at most one
    dash or white space) followed by 7 to 15 digits, dashes or white
    spaces. *)
Theorem phone_pattern_grammar s : phone_pattern s = true <-> phone_shape s.
Proof. apply phone_pattern_iff. Qed.

(** X18. A string that the phone pattern accepts has between 7 and 21
    characters, all of them digits, dashes or white spaces except for a plus
    sign that can only come first, and a plus sign is followed by a digit
    other than 0. *)
Theorem phone_pattern_bounds s :
  phone_pattern s = true ->
  7 <= String.length s <= 21 /\
  (forall i c, String.list_ascii_of_string s !! i = Some c ->
     is_phone_char c = true \/ (i = 0 /\ c = "+"%char)) /\
  (forall d, String.list_ascii_of_string s !! 0 = Some "+"%char ->
     String.list_ascii_of_string s !! 1 = Some d -> is_digit19 d = true).
Proof.
  intros (prefix & body & Hs & Hpre & Hlen & Hall)%phone_pattern_iff.
  rewrite <- length_list_ascii, Hs, length_app.
  destruct Hpre as [->|(d & ds & sep & -> & Hd & Hlds & Hds & Hsep)].
  - simpl. split_and!; [lia..| |].
    + intros i c Hi. left. exact (Forall_lookup_1 _ body i c Hall Hi).
    + intros d H0. pose proof (Forall_lookup_1 _ body 0 _ Hall H0) as Hplus.
      by vm_compute in Hplus.
  - assert (Hlsep : length sep <= 1).
    { destruct Hsep as [->|(c & -> & _)]; simpl; lia. }
    simpl. rewrite length_app. split_and!; [lia..| |].
    + intros [|[|i]] c Hi; simpl in Hi.
      * right. by simplify_eq.
      * left. simplify_eq. unfold is_phone_char.
        unfold is_digit19 in Hd. unfold is_digit.
        apply andb_true_iff in Hd as [Hlo Hhi]. apply Nat.leb_le in Hlo.
        rewrite Hhi, (proj2 (Nat.leb_le 48 (code c))) by lia. done.
      * left. rewrite <- app_assoc in Hi.
        apply lookup_app_Some in Hi as [Hi|[_ Hi]].
        { rewrite forallb_forall in Hds. unfold is_phone_char.
          rewrite Hds; [done|]. apply list_elem_of_In.
          by eapply list_elem_of_lookup_2. }
        apply lookup_app_Some in Hi as [Hi|[_ Hi]].
        { destruct Hsep as [->|(c' & -> & Hc')]; [done|].
          apply list_lookup_singleton_Some in Hi as [_ <-].
          unfold is_phone_char. rewrite Hc'. apply orb_true_r. }
        exact (Forall_lookup_1 _ body _ c Hall Hi).
    + intros d' _ [= <-]. done.
Qed.

(** * Further properties of the schemas of the program *)

Section MoreSchemas.
Context `{Formats}.

Lemma userUpdateSchema_keys :
  userUpdateSchema =
    [("firstName", Joi_string); ("lastName", Joi_string);
     ("email", emailSchema); ("phone", phoneSchema)].
Proof. reflexivity. Qed.

Lemma accepts_optional_string v :
  accepts Joi_string v <-> v = VUndefined \/ exists x, v = VStr x /\ x <> "".
Proof.
  destruct v as [| | | |x]; simpl.
  - split; [by left | done].
  - split; [done | by intros [?|(? & ? & _)]].
  - split; [done | by intros [?|(? & ? & _)]].
  - split; [done | by intros [?|(? & ? & _)]].
  - split.
    + intros [Hx _]. right. eauto.
    + intros [?|(y & [= <-] & Hy)]; [done|]. split; [done | constructor].
Qed.

(** With at most one rule per field, the paths of the details are keys of
    the schema, each at most once, in declaration order. *)
Lemma detail_paths_sublist (o : object_schema) (raw : obj) :
  (forall k s, (k, s) ∈ o -> length (rules s) <= 1) ->
  path <$> errorDetails (object_errors o raw) `sublist_of` o.*1.
Proof.
  unfold object_errors, errorDetails.
  induction o as [|[k s] o IH]; intros Hone; [done|].
  simpl. rewrite !fmap_app.
  apply (sublist_app _ [k] _ (o.*1)).
  - assert (Hs : length (rules s) <= 1) by (apply (Hone k); left).
    destruct (get raw k) as [| | | |x]; simpl.
    + destruct (flag_presence s); simpl; [apply sublist_nil_l|done].
    + done.
    + done.
    + done.
    + destruct x as [|c x]; [done|]. unfold rule_errors.
      destruct (rules s) as [|r [|r' rs]]; simpl in *; [apply sublist_nil_l| |lia].
      destruct (rule_test r _); simpl; [apply sublist_nil_l | done].
  - apply IH. intros k' s' Hin. apply (Hone k'). by right.
Qed.

(** X19. A 400 of the user-create or of the user-update schema has at least
    one detail, and the paths of its details are among firstName, lastName,
    email and phone, each at most once and in that order. *)
Theorem details_once_per_field (raw : obj) details :
  (validateRequest userCreateSchema raw = BadRequest details ->
     details <> [] /\ path <$> details `sublist_of` body_fields) /\
  (validateRequest userUpdateSchema raw = BadRequest details ->
     details <> [] /\ path <$> details `sublist_of` body_fields).
Proof.
  split; intros (Hne & ->)%validateRequest_BadRequest.
  - split.
    + intros Hnil%fmap_nil_inv. done.
    + apply (detail_paths_sublist userCreateSchema raw).
      intros k s Hin. rewrite userCreateSchema_keys in Hin.
      repeat (apply elem_of_cons in Hin as [Hin|Hin];
              [simplify_eq; simpl; lia|]).
      by apply elem_of_nil in Hin.
  - split.
    + intros Hnil%fmap_nil_inv. done.
    + apply (detail_paths_sublist userUpdateSchema raw).
      intros k s Hin. rewrite userUpdateSchema_keys in Hin.
      repeat (apply elem_of_cons in Hin as [Hin|Hin];
              [simplify_eq; simpl; lia|]).
      by apply elem_of_nil in Hin.
Qed.

(** X20. The user-update schema accepts a body exactly when each of
    [firstName] and [lastName] is absent or a non-empty string, [email] is
    absent or a non-empty string with the format of an address, and [phone]
    is absent or a non-empty string that matches the phone pattern. A body
    that the user-create schema accepts is accepted by the user-update
    schema, with the same sanitized value. *)
Theorem update_schema_accepts (raw : obj) :
  ((exists body, validateRequest userUpdateSchema raw = Next body) <->
   (get raw "firstName" = VUndefined \/
    exists f, get raw "firstName" = VStr f /\ f <> "") /\
   (get raw "lastName" = VUndefined \/
    exists l, get raw "lastName" = VStr l /\ l <> "") /\
   (get raw "email" = VUndefined \/
    exists e, get raw "email" = VStr e /\ e <> "" /\ isEmail e = true) /\
   (get raw "phone" = VUndefined \/
    exists p, get raw "phone" = VStr p /\ p <> "" /\ phone_pattern p = true)) /\
  (forall body, validateRequest userCreateSchema raw = Next body ->
     validateRequest userUpdateSchema raw = Next body).
Proof.
  split.
  - rewrite <- (accepts_optional_string (get raw "firstName")).
    rewrite <- (accepts_optional_string (get raw "lastName")).
    rewrite <- (accepts_one_rule emailSchema isEmail _ _ (get raw "email")
                  eq_refl eq_refl).
    rewrite <- (accepts_one_rule phoneSchema phone_pattern _ _ (get raw "phone")
                  eq_refl eq_refl).
    split.
    + intros (body & (Herr & _)%validateRequest_Next).
      pose proof (proj1 (object_errors_nil _ raw) Herr) as Hacc.
      rewrite userUpdateSchema_keys in Hacc.
      split_and!; apply Hacc; in_list.
    + intros (Hf & Hl & He & Hp). eexists. apply validateRequest_Next.
      split; [|done]. apply object_errors_nil. intros k s Hin.
      rewrite userUpdateSchema_keys in Hin.
      repeat (apply elem_of_cons in Hin as [Hin|Hin]; [by simplify_eq|]).
      by apply elem_of_nil in Hin.
  - intros body (Herr & ->)%validateRequest_Next. apply validateRequest_Next.
    split; [|done].
    pose proof (proj1 (object_errors_nil _ raw) Herr) as Hacc.
    rewrite userCreateSchema_keys in Hacc.
    apply object_errors_nil. intros k s Hin.
    rewrite userUpdateSchema_keys in Hin.
    repeat (apply elem_of_cons in Hin as [Hin|Hin]; [simplify_eq|]).
    + apply accepts_optional_string. right.
      by apply accepts_required_string, Hacc; in_list.
    + apply accepts_optional_string. right.
      by apply accepts_required_string, Hacc; in_list.
    + apply Hacc. in_list.
    + apply Hacc. in_list.
    + by apply elem_of_nil in Hin.
Qed.

End MoreSchemas.

(** * The further properties on concrete inputs *)

Lemma update_then_read_witness :
  getUserById (VStr "2")
    [john; updatedUser mockDateString jane {["lastName" := VStr "X"]}; bob]
  = Ok (updatedUser mockDateString jane {["lastName" := VStr "X"]}).
Proof.
  apply (update_then_read mockDateString (VStr "2") {["lastName" := VStr "X"]}
           [john; jane; bob]); done.
Defined.

Lemma update_frame_witness :
  getUserById (VStr "3")
    (updateUser mockDateString (VStr "2") {["lastName" := VStr "X"]}
       [john; jane; bob]).2
  = getUserById (VStr "3") [john; jane; bob].
Proof.
  apply (update_frame mockDateString (VStr "2") (VStr "3")
           {["lastName" := VStr "X"]} [john; jane; bob]); done.
Defined.

Lemma update_twice_witness :
  updateUser mockDateString (VStr "2") {["firstName" := VStr "J"]}
    (updateUser "2024-02-01T00:00:00.000Z" (VStr "2")
       {["lastName" := VStr "X"]} [john; jane; bob]).2
  = updateUser mockDateString (VStr "2")
      ({["firstName" := VStr "J"]} ∪ {["lastName" := VStr "X"]})
      [john; jane; bob] /\
  updateUser "2024-02-01T00:00:00.000Z" (VStr "2") {["lastName" := VStr "X"]}
    (updateUser "2024-02-01T00:00:00.000Z" (VStr "2")
       {["lastName" := VStr "X"]} [john; jane; bob]).2
  = updateUser "2024-02-01T00:00:00.000Z" (VStr "2")
      {["lastName" := VStr "X"]} [john; jane; bob].
Proof.
  apply (update_twice "2024-02-01T00:00:00.000Z" mockDateString (VStr "2")
           {["lastName" := VStr "X"]} {["firstName" := VStr "J"]}
           [john; jane; bob]).
  done.
Defined.

Lemma create_frame_witness :
  getUserById (VStr "2")
    (createNewUser mockUUID mockDateString mockDateString user_two
       [john; jane; bob]).2
  = getUserById (VStr "2") [john; jane; bob].
Proof.
  apply (create_frame mockUUID mockDateString mockDateString user_two
           [john; jane; bob] (VStr "2")).
  done.
Defined.

Lemma delete_frame_witness :
  getUserById (VStr "3") (deleteUser (VStr "2") [john; jane; bob]).2
  = getUserById (VStr "3") [john; jane; bob].
Proof.
  apply (delete_frame (VStr "2") (VStr "3") [john; jane; bob]). done.
Defined.

Lemma create_then_delete_witness :
  let '(r, us') := createNewUser mockUUID mockDateString mockDateString
                     user_two [john; jane; bob] in
  deleteUser (get r "id") us' = (Ok r, [john; jane; bob]).
Proof.
  apply (create_then_delete mockUUID mockDateString mockDateString user_two
           [john; jane; bob]).
  apply (bool_decide_unpack (fresh mockUUID [john; jane; bob])). by vm_compute.
Defined.

Lemma validation_ignores_unknown_witness :
  @validateRequest (@userUpdateSchema sample_formats) patch_with_id
  = @validateRequest (@userUpdateSchema sample_formats)
      {["firstName" := VStr "Johnny"]}.
Proof.
  apply (validation_ignores_unknown (@userUpdateSchema sample_formats)
           patch_with_id {["firstName" := VStr "Johnny"]}).
  intros k Hk. change (k ∈ body_fields) in Hk. unfold body_fields in Hk.
  repeat (apply elem_of_cons in Hk as [->|Hk]; [done|]).
  by apply elem_of_nil in Hk.
Defined.

Lemma validation_idempotent_witness :
  (forall k, k ∈ (@userUpdateSchema sample_formats).*1 ->
     ({["firstName" := VStr "Johnny"]} : obj) !! k = patch_with_id !! k) /\
  (forall k, k ∉ (@userUpdateSchema sample_formats).*1 ->
     ({["firstName" := VStr "Johnny"]} : obj) !! k = None) /\
  @validateRequest (@userUpdateSchema sample_formats)
    {["firstName" := VStr "Johnny"]} = Next {["firstName" := VStr "Johnny"]}.
Proof.
  apply (validation_idempotent
           (@userUpdateSchema sample_formats) patch_with_id
           {["firstName" := VStr "Johnny"]}).
  done.
Defined.

Lemma invalid_id_refused_witness :
  let params : obj := {["id" := VStr "invalid-uuid"]} in
  let details := [ {| path := "id"; message := "id must be a valid GUID" |} ] in
  @get_route sample_formats params [john; jane; bob]
    = (Invalid details, [john; jane; bob]) /\
  @patch_route sample_formats mockDateString params alice_bad [john; jane; bob]
    = (Invalid details, [john; jane; bob]) /\
  @delete_route sample_formats params [john; jane; bob]
    = (Invalid details, [john; jane; bob]) /\
  exists m, details = [ {| path := "id"; message := m |} ].
Proof.
  apply (@invalid_id_refused sample_formats mockDateString
           {["id" := VStr "invalid-uuid"]} alice_bad [john; jane; bob]).
  done.
Defined.

Lemma stored_record_retrievable_witness :
  getUserById
    (get (newUser mockUUID mockDateString mockDateString user_two) "id")
    after_post
  = Ok (newUser mockUUID mockDateString mockDateString user_two).
Proof.
  apply (@stored_record_retrievable sample_formats mockDateString after_post).
  - apply after_post_reachable.
  - apply (list_elem_of_lookup_2 _ 10). done.
Defined.

Lemma delete_then_not_found_witness :
  let params : obj := {["id" := VStr "4b1335f4-788b-4e8d-9ed5-04b99ce430a4"]} in
  @reachable sample_formats seed_time (delete 0 users) /\
  @get_route sample_formats params (delete 0 users)
    = (Failed NotFound, delete 0 users) /\
  @delete_route sample_formats params (delete 0 users)
    = (Failed NotFound, delete 0 users).
Proof.
  apply (@delete_then_not_found sample_formats seed_time users (delete 0 users)
           {["id" := VStr "4b1335f4-788b-4e8d-9ed5-04b99ce430a4"]} 200
           (mkUser "4b1335f4-788b-4e8d-9ed5-04b99ce430a4" "Emma" "Johnson"
              "emma.johnson@email.com" "+1-555-555-0123"
              "2023-01-15T08:30:00Z" "2023-08-22T14:15:30Z")).
  - apply reach_seed.
  - done.
Defined.

Lemma phone_pattern_bounds_witness :
  7 <= String.length "+1-555-555-0123" <= 21 /\
  (forall i c, String.list_ascii_of_string "+1-555-555-0123" !! i = Some c ->
     is_phone_char c = true \/ (i = 0 /\ c = "+"%char)) /\
  (forall d, String.list_ascii_of_string "+1-555-555-0123" !! 0 = Some "+"%char ->
     String.list_ascii_of_string "+1-555-555-0123" !! 1 = Some d ->
     is_digit19 d = true).
Proof. apply (phone_pattern_bounds "+1-555-555-0123"). done. Defined.
